(** * Q-Learning and Value Iteration on a four-state example MDP

    A shallow embedding of the notebook [Template-checkpoint.ipynb] under
    [Week 3/Q-Learning and Value Iteration/.ipynb_checkpoints]: the class
    [ExampleEnvironment], the function [value_iteration], the class
    [QLearningAgent] and the function [run_experiment].

    Conventions of the embedding.
    - Python floats are modelled by exact rationals [Q]; numeric equality is
      [Qeq] (written [==]).  Rounding, NaN and infinities are outside the
      model, except for [float("-inf")], the initial [top] of [argmax], which
      is the [None] of an [option Q].  The one place where rounding decides
      what a method returns, the convergence test of [QLearningAgent.step],
      is treated on IEEE doubles in section 5.
    - The constructors of sections 1 and 3 are modelled for the seeds numpy
      takes, the integers of [0 .. 2^32 - 1]; for any other
      [np.random.RandomState] raises [ValueError] ([RandomState_call]), a
      path that the constructor of section 5 takes.
    - Python integers used as indices are [Z]: both Python lists and numpy
      arrays accept a negative index [i >= -len] and read position
      [len + i]; anything else raises [IndexError].
    - A method is a computation [Py S A]: a function from the object's state
      [S] to an [outcome] and the state left behind.  A raised exception does
      not roll the state back.
    - numpy's [RandomState] is not part of the repository.  It is an
      interface ([RandomState]) with the two primitive draws the notebook
      relies on and their range laws; [choice], [rand] and [uniform] are
      written on top of it the way numpy's legacy generator does. *)

From Stdlib Require Import ZArith QArith Qabs Lia Lqa.
From Stdlib Require SpecFloat.
From stdpp Require Import base list.

Open Scope Q_scope.

(** ** Outcomes and the method monad *)

Inductive exn : Type := IndexError | TypeError | ValueError.

Inductive outcome (A : Type) : Type :=
| Return (a : A)
| Raise (e : exn).
Arguments Return {A} a.
Arguments Raise {A} e.

Definition Py (S A : Type) : Type := S -> outcome A * S.

Definition ret {S A} (a : A) : Py S A := fun s => (Return a, s).

Definition raise {S A} (e : exn) : Py S A := fun s => (Raise e, s).

Definition bind {S A B} (m : Py S A) (k : A -> Py S B) : Py S B :=
  fun s =>
    match m s with
    | (Return a, s') => k a s'
    | (Raise e, s') => (Raise e, s')
    end.

Definition gets {S A} (f : S -> A) : Py S A := fun s => (Return (f s), s).

Definition modify {S} (f : S -> S) : Py S unit := fun s => (Return tt, f s).

Definition lift_outcome {S A} (o : outcome A) : Py S A := fun s => (o, s).

(** Run a computation on a component [T] of the state [S]. *)
Definition zoom {S T A} (get : S -> T) (set : T -> S -> S) (m : Py T A)
  : Py S A :=
  fun s => let '(o, t) := m (get s) in (o, set t s).

Declare Scope py_scope.
Delimit Scope py_scope with py.
Notation "'let*' x ':=' m 'in' k" := (bind m (fun x => k))
  (at level 10, x pattern, m at level 100, k at level 200) : py_scope.
Notation "m ';;' k" := (bind m (fun _ => k))
  (at level 100, k at level 200, right associativity) : py_scope.
Open Scope py_scope.

(** Binding of pure outcomes (no state). *)
Definition obind {A B} (o : outcome A) (k : A -> outcome B) : outcome B :=
  match o with
  | Return a => k a
  | Raise e => Raise e
  end.

(** ** Python numerics *)

(** [a < b] and [a == b] on floats. *)
Definition Qltb (a b : Q) : bool := negb (Qle_bool b a).

(** The builtin [max(a, b)]: the first argument unless the second is
    strictly greater. *)
Definition pymax (a b : Q) : Q := if Qltb a b then b else a.

(** [-1e8], the initial [new_val] of [QLearningAgent.step]. *)
Definition neg_1e8 : Q := - (100000000 # 1).

(** ** Indexing *)

(** Normalisation of an index against a length, shared by [list.__getitem__]
    and numpy's integer indexing. *)
Definition py_index (len : nat) (i : Z) : option nat :=
  if (0 <=? i)%Z && (i <? Z.of_nat len)%Z then Some (Z.to_nat i)
  else if (- Z.of_nat len <=? i)%Z && (i <? 0)%Z
       then Some (Z.to_nat (Z.of_nat len + i))
       else None.

Definition getitem {A} (l : list A) (i : Z) : outcome A :=
  match py_index (length l) i with
  | Some k =>
      match l !! k with
      | Some x => Return x
      | None => Raise IndexError
      end
  | None => Raise IndexError
  end.

(** [l[None]] on a Python list raises [TypeError]. *)
Definition getitem_opt {A} (l : list A) (i : option Z) : outcome A :=
  match i with
  | Some i => getitem l i
  | None => Raise TypeError
  end.

(** In-place [l[i] = x] on a numpy array. *)
Definition setitem {A} (l : list A) (i : Z) (x : A) : outcome (list A) :=
  match py_index (length l) i with
  | Some k => Return (<[k := x]> l)
  | None => Raise IndexError
  end.

(** [range(n)] as Python integers. *)
Definition range (n : nat) : list Z := map Z.of_nat (seq 0 n).

(** ** numpy array operations used by the notebook *)

(** [np.sum] of a one-dimensional array. *)
Definition np_sum (l : list Q) : Q := foldr Qplus 0 l.

(** [np.max] of a non-empty sequence; an empty one raises [ValueError]. *)
Definition np_max (l : list Q) : outcome Q :=
  match l with
  | [] => Raise ValueError
  | x :: rest => Return (fold_left pymax rest x)
  end.

(** [p.cumsum()]. *)
Fixpoint cumsum_from (acc : Q) (l : list Q) : list Q :=
  match l with
  | [] => []
  | x :: rest => (acc + x) :: cumsum_from (acc + x) rest
  end.

Definition cumsum (l : list Q) : list Q := cumsum_from 0 l.

(** [cdf.searchsorted(u, side='right')] on a non-decreasing array: the number
    of leading entries that are [<= u]. *)
Fixpoint searchsorted_right (cdf : list Q) (u : Q) : nat :=
  match cdf with
  | [] => O
  | c :: rest => if Qle_bool c u then S (searchsorted_right rest u) else O
  end.

(** Elementwise arithmetic of a scalar with an array, and of two arrays of
    the same shape (a shape mismatch raises [ValueError]). *)
Definition scalar_mul (c : Q) (v : list Q) : list Q := map (Qmult c) v.

Definition scalar_add (c : Q) (v : list Q) : list Q := map (Qplus c) v.

Fixpoint zip_mul (u v : list Q) : list Q :=
  match u, v with
  | a :: u', b :: v' => (a * b) :: zip_mul u' v'
  | _, _ => []
  end.

Definition array_mul (u v : list Q) : outcome (list Q) :=
  if Nat.eqb (length u) (length v) then Return (zip_mul u v)
  else Raise ValueError.

(** ** The random generator *)

(** [np.sqrt(np.finfo(np.float64).eps)], the tolerance of [choice] on the
    sum of [p]: the square root of [2^-52]. *)
Definition choice_atol : Q := 1 # (2 ^ 26).

Class RandomState (G : Type) : Type := {
  (** [np.random.RandomState(seed)] *)
  seed_state : Z -> G;
  (** one uniform float of [[0, 1)] *)
  random_sample : G -> Q * G;
  (** one uniform integer of [[0, high)], for [0 < high] *)
  random_below : Z -> G -> Z * G;
  random_sample_range :
    forall g, 0 <= fst (random_sample g) /\ fst (random_sample g) < 1;
  random_below_range :
    forall high g, (0 < high)%Z ->
      (0 <= fst (random_below high g) < high)%Z
}.

Section Generator.
Context {G : Type} `{RandomState G}.

(** The call [np.random.RandomState(seed)] on an integer: numpy takes a
    seed of [0 .. 2^32 - 1] and raises [ValueError] for any other. *)
Definition RandomState_call (seed : Z) : outcome G :=
  if (0 <=? seed)%Z && (seed <? 2 ^ 32)%Z then Return (seed_state seed)
  else Raise ValueError.

(** [rand()] *)
Definition rand : Py G Q :=
  fun g => let '(u, g') := random_sample g in (Return u, g').

(** [randint(high)] *)
Definition randint (high : Z) : Py G Z :=
  if (high <=? 0)%Z then raise ValueError
  else fun g => let '(k, g') := random_below high g in (Return k, g').

(** [choice(a)]: a uniform index into a non-empty sequence. *)
Definition choice {A} (a : list A) : Py G A :=
  match a with
  | [] => raise ValueError
  | _ =>
      let* idx := randint (Z.of_nat (length a)) in
      lift_outcome (getitem a idx)
  end.

(** [choice(a, p=p)]: [p] is validated, then the index is found by
    inverting the normalised cumulative sums at one uniform draw. *)
Definition choice_p {A} (a : list A) (p : list Q) : Py G A :=
  match a with
  | [] => raise ValueError
  | _ =>
      if negb (Nat.eqb (length p) (length a)) then raise ValueError
      else if existsb (fun x => Qltb x 0) p then raise ValueError
      else if Qltb choice_atol (Qabs (np_sum p - 1)) then raise ValueError
      else
        let cdf := cumsum p in
        let total := List.last cdf 0 in
        let cdf := map (fun c => c / total) cdf in
        let* u := rand in
        let idx := searchsorted_right cdf u in
        lift_outcome (getitem a (Z.of_nat idx))
  end.

(** [uniform(low, high, n)]: [n] draws, each [low + (high - low) * u]. *)
Fixpoint uniform (low high : Q) (n : nat) : Py G (list Q) :=
  match n with
  | O => ret []
  | S n' =>
      let* u := rand in
      let* rest := uniform low high n' in
      ret ((low + (high - low) * u) :: rest)
  end.

(** [uniform(low, high, (rows, cols))], filled row by row. *)
Fixpoint uniform2 (low high : Q) (rows cols : nat) : Py G (list (list Q)) :=
  match rows with
  | O => ret []
  | S rows' =>
      let* r := uniform low high cols in
      let* rest := uniform2 low high rows' cols in
      ret (r :: rest)
  end.
End Generator.

(** A [for] loop over a Python list. *)
Fixpoint for_each {S A} (l : list A) (body : A -> Py S unit) : Py S unit :=
  match l with
  | [] => ret tt
  | x :: rest => body x ;; for_each rest body
  end.

(** ** 1. Environment *)

Module ExampleEnvironment.
Section WithGenerator.
Context {G : Type} `{RandomState G}.

(** The dictionary [env_info]: only the key ["seed"] is read. *)
Record env_info : Type := { info_seed : option Z }.

Record self : Type := {
  grid : list Z;
  rewards : list (list Q);
  tran_matrix : list (list Q);
  rand_generator : G;
  cur_loc : option Z
}.

Definition set_rand_generator (g : G) (e : self) : self :=
  {| grid := grid e; rewards := rewards e; tran_matrix := tran_matrix e;
     rand_generator := g; cur_loc := cur_loc e |}.

Definition set_cur_loc (c : option Z) (e : self) : self :=
  {| grid := grid e; rewards := rewards e; tran_matrix := tran_matrix e;
     rand_generator := rand_generator e; cur_loc := c |}.

Definition the_grid : list Z := [0; 1; 2; 3]%Z.

Definition the_rewards : list (list Q) :=
  [ [0; 0; 2];
    [0; 1; 0];
    [1; 1; 0];
    [2; 3 # 2; 3] ].

Definition the_tran_matrix : list (list Q) :=
  [ [1 # 2; 1 # 2; 0; 0];
    [1 # 4; 1 # 4; 1 # 2; 0];
    [0; 1 # 4; 1 # 4; 1 # 2];
    [0; 0; 1 # 4; 3 # 4] ].

(** [__init__(self, env_info={})] *)
Definition __init__ (info : env_info) : self :=
  {| grid := the_grid;
     rewards := the_rewards;
     tran_matrix := the_tran_matrix;
     rand_generator := seed_state (default 0%Z (info_seed info));
     cur_loc := None |}.

Definition start : Py self Z :=
  let* g := gets grid in
  let* loc := zoom rand_generator set_rand_generator (choice g) in
  modify (set_cur_loc (Some loc)) ;;
  ret loc.

(** [self.tran_matrix[self.cur_loc]] is only reached after
    [self.rewards[self.cur_loc]] has succeeded, hence with an integer
    [cur_loc]. *)
Definition step (action : Z) : Py self (Z * Q) :=
  let* loc := gets cur_loc in
  let* rs := gets rewards in
  let* row := lift_outcome (getitem_opt rs loc) in
  let* next_reward := lift_outcome (getitem row action) in
  let* g := gets grid in
  let* tm := gets tran_matrix in
  let* p := lift_outcome (getitem_opt tm loc) in
  let* next_state :=
    zoom rand_generator set_rand_generator (choice_p g p) in
  modify (set_cur_loc (Some next_state)) ;;
  ret (next_state, next_reward).
End WithGenerator.
Arguments self G : clear implicits.
End ExampleEnvironment.

(** ** 2. Value iteration *)

Module ValueIteration.
Section WithGenerator.
Context {G : Type} `{RandomState G}.
Import ExampleEnvironment.

(** The two local variables the loops assign. *)
Record locals : Type := { s_vals : list Q; delta : Q }.

Definition set_s_vals (v : list Q) (l : locals) : locals :=
  {| s_vals := v; delta := delta l |}.

Definition set_delta (d : Q) (l : locals) : locals :=
  {| s_vals := s_vals l; delta := d |}.

(** [np.sum(env.tran_matrix[s] * (env.rewards[s][a] + discount * s_vals))] *)
Definition action_value (env : self G) (discount : Q) (sv : list Q)
    (s a : Z) : outcome Q :=
  obind (getitem (tran_matrix env) s) (fun row =>
  obind (getitem (rewards env) s) (fun rs =>
  obind (getitem rs a) (fun r =>
  obind (array_mul row (scalar_add r (scalar_mul discount sv)))
    (fun sum_rhs => Return (np_sum sum_rhs))))).

(** The inner loop [for a in actions: vals.append(...)]. *)
Fixpoint action_values (env : self G) (discount : Q) (sv : list Q)
    (s : Z) (actions : list Z) : outcome (list Q) :=
  match actions with
  | [] => Return []
  | a :: rest =>
      obind (action_value env discount sv s a) (fun v =>
      obind (action_values env discount sv s rest) (fun vs =>
      Return (v :: vs)))
  end.

(** The body of [for s in env.grid]. *)
Definition visit (env : self G) (discount : Q) (actions : list Z) (s : Z)
  : Py locals unit :=
  let* sv := gets s_vals in
  let* cur_val := lift_outcome (getitem sv s) in
  let* vals := lift_outcome (action_values env discount sv s actions) in
  let* best := lift_outcome (np_max vals) in
  let* sv' := lift_outcome (setitem sv s best) in
  modify (set_s_vals sv') ;;
  let* new := lift_outcome (getitem sv' s) in
  let* d := gets delta in
  modify (set_delta (pymax d (Qabs (cur_val - new)))).

(** One pass of the [while] body. *)
Definition sweep (env : self G) (discount : Q) (actions : list Z)
  : Py locals unit :=
  modify (set_delta 0) ;;
  for_each (grid env) (visit env discount actions).

(** [while delta > theta: ...]; [None] when the fuel runs out before the
    loop condition fails. *)
Fixpoint while_loop (fuel : nat) (env : self G) (theta discount : Q)
    (actions : list Z) (l : locals) : option (outcome unit * locals) :=
  if Qltb theta (delta l) then
    match fuel with
    | O => None
    | S fuel' =>
        match sweep env discount actions l with
        | (Return _, l') => while_loop fuel' env theta discount actions l'
        | (Raise e, l') => Some (Raise e, l')
        end
    end
  else Some (Return tt, l).

(** [value_iteration(theta, discount)], defaults [0.01] and [0.9]. *)
Definition value_iteration (fuel : nat) (theta discount : Q)
  : option (outcome (list Q)) :=
  let env := __init__ {| info_seed := None |} in
  let l := {| s_vals := replicate 4 0; delta := theta * 10 |} in
  let actions := range 3 in
  match while_loop fuel env theta discount actions l with
  | None => None
  | Some (Return _, l') => Some (Return (s_vals l'))
  | Some (Raise e, _) => Some (Raise e)
  end.
End WithGenerator.
End ValueIteration.

(** ** 3. Q-learning agent *)

Module QLearningAgent.
Section WithGenerator.
Context {G : Type} `{RandomState G}.

(** The dictionary [agent_info]: the five keys that are read. *)
Record agent_info : Type := {
  info_discount : option Q;
  info_step_size : option Q;
  info_epsilon : option Q;
  info_delta : option Q;
  info_seed : option Z
}.

Record self : Type := {
  num_actions : Z;
  num_states : Z;
  discount : Q;
  step_size : Q;
  epsilon : Q;
  delta : Q;
  rand_generator : G;
  q : list (list Q);
  prev_state : option Z;
  prev_action : option Z
}.

Definition set_rand_generator (g : G) (a : self) : self :=
  {| num_actions := num_actions a; num_states := num_states a;
     discount := discount a; step_size := step_size a;
     epsilon := epsilon a; delta := delta a;
     rand_generator := g; q := q a;
     prev_state := prev_state a; prev_action := prev_action a |}.

Definition set_q (t : list (list Q)) (a : self) : self :=
  {| num_actions := num_actions a; num_states := num_states a;
     discount := discount a; step_size := step_size a;
     epsilon := epsilon a; delta := delta a;
     rand_generator := rand_generator a; q := t;
     prev_state := prev_state a; prev_action := prev_action a |}.

Definition set_prev (s act : option Z) (a : self) : self :=
  {| num_actions := num_actions a; num_states := num_states a;
     discount := discount a; step_size := step_size a;
     epsilon := epsilon a; delta := delta a;
     rand_generator := rand_generator a; q := q a;
     prev_state := s; prev_action := act |}.

(** [__init__(self, agent_info={})] *)
Definition __init__ (info : agent_info) : self :=
  let g := seed_state (default 0%Z (info_seed info)) in
  let '(table, g') := uniform2 0 (1 # 10) 4 3 g in
  {| num_actions := 3;
     num_states := 4;
     discount := default (9 # 10) (info_discount info);
     step_size := default (1 # 10) (info_step_size info);
     epsilon := default (1 # 10) (info_epsilon info);
     delta := default (1 # 100) (info_delta info);
     rand_generator := g';
     q := match table with Return t => t | Raise _ => [] end;
     prev_state := None;
     prev_action := None |}.

(** [q_values[i] > top] and [q_values[i] == top], where [top] starts as
    [float("-inf")]. *)
Definition above (v : Q) (top : option Q) : bool :=
  match top with
  | None => true
  | Some t => Qltb t v
  end.

Definition equals (v : Q) (top : option Q) : bool :=
  match top with
  | None => false
  | Some t => Qeq_bool v t
  end.

(** The [for i in range(len(q_values))] loop of [argmax], started at index
    [i] with the remaining values [vs]. *)
Fixpoint argmax_scan (i : Z) (vs : list Q) (top : option Q) (ties : list Z)
  : option Q * list Z :=
  match vs with
  | [] => (top, ties)
  | v :: rest =>
      let '(top, ties) :=
        if above v top then (Some v, []) else (top, ties) in
      let ties := if equals v top then ties ++ [i] else ties in
      argmax_scan (i + 1) rest top ties
  end.

Definition argmax (q_values : list Q) : Py self Z :=
  let '(_, ties) := argmax_scan 0 q_values None [] in
  zoom rand_generator set_rand_generator (choice ties).

(** The epsilon-greedy choice, written out twice in the source (in [start]
    and in [step]). *)
Definition epsilon_greedy (current_q : list Q) : Py self Z :=
  let* u := zoom rand_generator set_rand_generator rand in
  let* eps := gets epsilon in
  if Qltb u eps then
    let* n := gets num_actions in
    zoom rand_generator set_rand_generator (randint n)
  else argmax current_q.

(** [self.q[i, j]] *)
Definition getitem2 (t : list (list Q)) (i j : Z) : outcome Q :=
  obind (getitem t i) (fun row => getitem row j).

(** [self.q[i, j] = x] *)
Definition setitem2 (t : list (list Q)) (i j : Z) (x : Q)
  : outcome (list (list Q)) :=
  obind (getitem t i) (fun row =>
  obind (setitem row j x) (fun row' =>
  setitem t i row')).

Definition start (state : Z) : Py self Z :=
  let* t := gets q in
  let* current_q := lift_outcome (getitem t state) in
  let* action := epsilon_greedy current_q in
  modify (set_prev (Some state) (Some action)) ;;
  ret action.

(** The loop [for act in range(self.num_actions)] of [step]. *)
Fixpoint step_loop (acts : list Z) (state : Z) (reward cur_val new_val : Q)
  : Py self Q :=
  match acts with
  | [] => ret new_val
  | act :: rest =>
      let* alpha := gets step_size in
      let* gamma := gets discount in
      let* t := gets q in
      let* next := lift_outcome (getitem2 t state act) in
      let val := cur_val + alpha * (reward + gamma * next - cur_val) in
      step_loop rest state reward cur_val (pymax new_val val)
  end.

(** With [prev_state] or [prev_action] still [None], numpy takes [None] for a
    new axis and reads an array (after checking the index that is an integer,
    if any); [num_actions] being 3, the loop body runs and its
    [max(new_val, val)] raises [ValueError] on the truth value of an
    array. *)
Definition step (state : Z) (reward : Q) : Py self (Z * bool) :=
  let* t := gets q in
  let* current_q := lift_outcome (getitem t state) in
  let* action := epsilon_greedy current_q in
  let* ps := gets prev_state in
  let* pa := gets prev_action in
  match ps, pa with
  | Some ps, Some pa =>
      let* cur_val := lift_outcome (getitem2 t ps pa) in
      let* n := gets num_actions in
      let* new_val :=
        step_loop (range (Z.to_nat n)) state reward cur_val neg_1e8 in
      let* t' := lift_outcome (setitem2 t ps pa new_val) in
      modify (set_q t') ;;
      let* d := gets delta in
      if Qltb (Qabs (new_val - cur_val)) d then ret (action, true)
      else ret (action, false)
  | Some ps, None => lift_outcome (getitem t ps) ;; raise ValueError
  | None, Some pa => lift_outcome (getitem t pa) ;; raise ValueError
  | None, None => raise ValueError
  end.
End WithGenerator.
Arguments self G : clear implicits.
End QLearningAgent.

(** ** 4. Running experiments *)

(** [np.argmax] of a non-empty sequence: the first index of its maximum. *)
Fixpoint argmax_from (i best_i : Z) (best : Q) (vs : list Q) : Z :=
  match vs with
  | [] => best_i
  | v :: rest =>
      if Qltb best v then argmax_from (i + 1) i v rest
      else argmax_from (i + 1) best_i best rest
  end.

Definition np_argmax (l : list Q) : outcome Z :=
  match l with
  | [] => Raise ValueError
  | x :: rest => Return (argmax_from 1 0 x rest)
  end.

(** A reduction along the last axis of a two-dimensional array. *)
Fixpoint along_rows {A} (f : list Q -> outcome A) (t : list (list Q))
  : outcome (list A) :=
  match t with
  | [] => Return []
  | row :: rest =>
      obind (f row) (fun x =>
      obind (along_rows f rest) (fun xs => Return (x :: xs)))
  end.

Module Experiment.
Section WithGenerator.
Context {G : Type} `{RandomState G}.

(** What the calls of [print] show; the texts around the values are left
    out. *)
Inductive printed : Type :=
| Progress (num_steps : Z) (q_values : list (list Q))
| ActionValues (q_values : list (list Q))
| StateValues (values : list Q)
| Policy (actions : list Z).

(** The local variables of [run_experiment] and the standard output.
    [next_state] and [next_reward] hold 0 until the first [env.step]
    assigns them; nothing reads them before. *)
Record locals : Type := {
  env : ExampleEnvironment.self G;
  agent : QLearningAgent.self G;
  has_converged : bool;
  num_steps : Z;
  next_state : Z;
  next_reward : Q;
  stdout : list printed
}.

Definition set_env (e : ExampleEnvironment.self G) (l : locals) : locals :=
  {| env := e; agent := agent l; has_converged := has_converged l;
     num_steps := num_steps l; next_state := next_state l;
     next_reward := next_reward l; stdout := stdout l |}.

Definition set_agent (a : QLearningAgent.self G) (l : locals) : locals :=
  {| env := env l; agent := a; has_converged := has_converged l;
     num_steps := num_steps l; next_state := next_state l;
     next_reward := next_reward l; stdout := stdout l |}.

Definition set_has_converged (b : bool) (l : locals) : locals :=
  {| env := env l; agent := agent l; has_converged := b;
     num_steps := num_steps l; next_state := next_state l;
     next_reward := next_reward l; stdout := stdout l |}.

Definition set_num_steps (n : Z) (l : locals) : locals :=
  {| env := env l; agent := agent l; has_converged := has_converged l;
     num_steps := n; next_state := next_state l;
     next_reward := next_reward l; stdout := stdout l |}.

Definition set_next (s : Z) (r : Q) (l : locals) : locals :=
  {| env := env l; agent := agent l; has_converged := has_converged l;
     num_steps := num_steps l; next_state := s;
     next_reward := r; stdout := stdout l |}.

Definition print (p : printed) (l : locals) : locals :=
  {| env := env l; agent := agent l; has_converged := has_converged l;
     num_steps := num_steps l; next_state := next_state l;
     next_reward := next_reward l; stdout := stdout l ++ [p] |}.

(** The three calls before the loop. *)
Definition prelude : Py locals unit :=
  let* init_state := zoom env set_env ExampleEnvironment.start in
  let* init_action :=
    zoom agent set_agent (QLearningAgent.start init_state) in
  let* tr := zoom env set_env (ExampleEnvironment.step init_action) in
  modify (set_next (fst tr) (snd tr)).

(** The body of [while not has_converged]. *)
Definition body (print_vals : bool) : Py locals unit :=
  let* s := gets next_state in
  let* r := gets next_reward in
  let* res := zoom agent set_agent (QLearningAgent.step s r) in
  modify (set_has_converged (snd res)) ;;
  let* tr := zoom env set_env (ExampleEnvironment.step (fst res)) in
  modify (set_next (fst tr) (snd tr)) ;;
  let* n := gets num_steps in
  (if print_vals && (n mod 2500 =? 0)%Z
   then let* a := gets agent in
        modify (print (Progress n (QLearningAgent.q a)))
   else ret tt) ;;
  modify (set_num_steps (n + 1)).

(** [while not has_converged: ...]; [None] when the fuel runs out. *)
Fixpoint while_loop (fuel : nat) (print_vals : bool) (l : locals)
  : option (outcome unit * locals) :=
  if has_converged l then Some (Return tt, l)
  else
    match fuel with
    | O => None
    | S fuel' =>
        match body print_vals l with
        | (Return _, l') => while_loop fuel' print_vals l'
        | (Raise e, l') => Some (Raise e, l')
        end
    end.

(** The prints after the loop, and the value returned. *)
Definition epilogue : Py locals (list (list Q)) :=
  let* a := gets agent in
  modify (print (ActionValues (QLearningAgent.q a))) ;;
  let* values := lift_outcome (along_rows np_max (QLearningAgent.q a)) in
  modify (print (StateValues values)) ;;
  let* actions :=
    lift_outcome (along_rows np_argmax (QLearningAgent.q a)) in
  modify (print (Policy actions)) ;;
  ret (QLearningAgent.q a).

(** [run_experiment(env_info, agent_info, print_vals)] *)
Definition run_experiment (fuel : nat)
    (env_info : ExampleEnvironment.env_info)
    (agent_info : QLearningAgent.agent_info) (print_vals : bool)
  : option (outcome (list (list Q)) * locals) :=
  let l :=
    {| env := ExampleEnvironment.__init__ env_info;
       agent := QLearningAgent.__init__ agent_info;
       has_converged := false;
       num_steps := 0;
       next_state := 0;
       next_reward := 0;
       stdout := [] |} in
  match prelude l with
  | (Raise e, l') => Some (Raise e, l')
  | (Return _, l') =>
      match while_loop fuel print_vals l' with
      | None => None
      | Some (Raise e, l'') => Some (Raise e, l'')
      | Some (Return _, l'') => Some (epilogue l'')
      end
  end.
End WithGenerator.
Arguments locals G : clear implicits.
End Experiment.

(** ** 5. The agent on doubles

    Whether [abs(new_val - cur_val) < self.delta] holds is decided on IEEE
    binary64 values, after a rounded subtraction.  For that test the class
    is embedded a second time, with every float a double and every
    operation rounded to nearest, ties to even, the way CPython and numpy
    compute on [float] and [np.float64] scalars. *)

Module Binary64.

Definition double : Type := SpecFloat.spec_float.

Definition prec : Z := 53.
Definition emax : Z := 1024.

Definition add : double -> double -> double := SpecFloat.SFadd prec emax.
Definition sub : double -> double -> double := SpecFloat.SFsub prec emax.
Definition mul : double -> double -> double := SpecFloat.SFmul prec emax.
Definition div : double -> double -> double := SpecFloat.SFdiv prec emax.
Definition abs : double -> double := SpecFloat.SFabs.

(** [a < b] and [a == b]: both are [False] when an operand is NaN. *)
Definition ltb : double -> double -> bool := SpecFloat.SFltb.
Definition eqb : double -> double -> bool := SpecFloat.SFeqb.

(** [float(z)] of an integer. *)
Definition of_Z (z : Z) : double :=
  SpecFloat.binary_normalize prec emax z 0 false.

(** The double nearest to [n / d], for integers [n] and [d] that doubles
    hold exactly: what a decimal literal such as [0.9] denotes. *)
Definition of_Q (x : Q) : double :=
  div (of_Z (Qnum x)) (of_Z (Z.pos (Qden x))).

(** [float("-inf")] *)
Definition neg_inf : double := SpecFloat.S754_infinity true.

Definition is_nan (x : double) : bool :=
  match x with
  | SpecFloat.S754_nan => true
  | _ => false
  end.

(** The builtin [max(a, b)]: the first argument unless the second is
    strictly greater. *)
Definition pymax (a b : double) : double := if ltb a b then b else a.

(** The exact value of a finite double. *)
Definition value (x : double) : option Q :=
  match x with
  | SpecFloat.S754_zero _ => Some 0
  | SpecFloat.S754_finite s m e =>
      Some ((if s then - inject_Z (Z.pos m) else inject_Z (Z.pos m))
            * Qpower 2 e)
  | _ => None
  end.

End Binary64.

Module QLearningAgent64.
Import Binary64.

Section WithGenerator.
Context {G : Type} `{RandomState G}.

(** The dictionary [agent_info], its floats as doubles. *)
Record agent_info : Type := {
  info_discount : option double;
  info_step_size : option double;
  info_epsilon : option double;
  info_delta : option double;
  info_seed : option Z
}.

Record self : Type := {
  num_actions : Z;
  num_states : Z;
  discount : double;
  step_size : double;
  epsilon : double;
  delta : double;
  rand_generator : G;
  q : list (list double);
  prev_state : option Z;
  prev_action : option Z
}.

Definition set_rand_generator (g : G) (a : self) : self :=
  {| num_actions := num_actions a; num_states := num_states a;
     discount := discount a; step_size := step_size a;
     epsilon := epsilon a; delta := delta a;
     rand_generator := g; q := q a;
     prev_state := prev_state a; prev_action := prev_action a |}.

Definition set_q (t : list (list double)) (a : self) : self :=
  {| num_actions := num_actions a; num_states := num_states a;
     discount := discount a; step_size := step_size a;
     epsilon := epsilon a; delta := delta a;
     rand_generator := rand_generator a; q := t;
     prev_state := prev_state a; prev_action := prev_action a |}.

Definition set_prev (s act : option Z) (a : self) : self :=
  {| num_actions := num_actions a; num_states := num_states a;
     discount := discount a; step_size := step_size a;
     epsilon := epsilon a; delta := delta a;
     rand_generator := rand_generator a; q := q a;
     prev_state := s; prev_action := act |}.

(** [rand()]: the sample of the interface is the exact value of a double
    [k / 2^53]; the division gives that double back. *)
Definition rand : Py G double :=
  fun g => let '(u, g') := random_sample g in (Return (of_Q u), g').

(** [uniform(low, high, n)]: [n] draws, each [low + (high - low) * u]. *)
Fixpoint uniform (low high : double) (n : nat) : Py G (list double) :=
  match n with
  | O => ret []
  | S n' =>
      let* u := rand in
      let* rest := uniform low high n' in
      ret (add low (mul (sub high low) u) :: rest)
  end.

Fixpoint uniform2 (low high : double) (rows cols : nat)
  : Py G (list (list double)) :=
  match rows with
  | O => ret []
  | S rows' =>
      let* r := uniform low high cols in
      let* rest := uniform2 low high rows' cols in
      ret (r :: rest)
  end.

(** [__init__(self, agent_info={})]: the only statement that can raise is
    the construction of the generator. *)
Definition __init__ (info : agent_info) : outcome self :=
  obind (RandomState_call (default 0%Z (info_seed info))) (fun g =>
  let '(table, g') := uniform2 (of_Z 0) (of_Q (1 # 10)) 4 3 g in
  obind table (fun t =>
  Return
    {| num_actions := 3;
       num_states := 4;
       discount := default (of_Q (9 # 10)) (info_discount info);
       step_size := default (of_Q (1 # 10)) (info_step_size info);
       epsilon := default (of_Q (1 # 10)) (info_epsilon info);
       delta := default (of_Q (1 # 100)) (info_delta info);
       rand_generator := g';
       q := t;
       prev_state := None;
       prev_action := None |})).

(** The [for i in range(len(q_values))] loop of [argmax], started at index
    [i] with the remaining values [vs]. *)
Fixpoint argmax_scan (i : Z) (vs : list double) (top : double)
    (ties : list Z) : double * list Z :=
  match vs with
  | [] => (top, ties)
  | v :: rest =>
      let '(top, ties) := if ltb top v then (v, []) else (top, ties) in
      let ties := if eqb v top then ties ++ [i] else ties in
      argmax_scan (i + 1) rest top ties
  end.

Definition argmax (q_values : list double) : Py self Z :=
  let '(_, ties) := argmax_scan 0 q_values neg_inf [] in
  zoom rand_generator set_rand_generator (choice ties).

Definition epsilon_greedy (current_q : list double) : Py self Z :=
  let* u := zoom rand_generator set_rand_generator rand in
  let* eps := gets epsilon in
  if ltb u eps then
    let* n := gets num_actions in
    zoom rand_generator set_rand_generator (randint n)
  else argmax current_q.

(** [self.q[i, j]] *)
Definition getitem2 (t : list (list double)) (i j : Z) : outcome double :=
  obind (getitem t i) (fun row => getitem row j).

(** [self.q[i, j] = x] *)
Definition setitem2 (t : list (list double)) (i j : Z) (x : double)
  : outcome (list (list double)) :=
  obind (getitem t i) (fun row =>
  obind (setitem row j x) (fun row' =>
  setitem t i row')).

Definition start (state : Z) : Py self Z :=
  let* t := gets q in
  let* current_q := lift_outcome (getitem t state) in
  let* action := epsilon_greedy current_q in
  modify (set_prev (Some state) (Some action)) ;;
  ret action.

(** The loop [for act in range(self.num_actions)] of [step]. *)
Fixpoint step_loop (acts : list Z) (state : Z)
    (reward cur_val new_val : double) : Py self double :=
  match acts with
  | [] => ret new_val
  | act :: rest =>
      let* alpha := gets step_size in
      let* gamma := gets discount in
      let* t := gets q in
      let* next := lift_outcome (getitem2 t state act) in
      let val :=
        add cur_val (mul alpha (sub (add reward (mul gamma next)) cur_val))
      in
      step_loop rest state reward cur_val (pymax new_val val)
  end.

(** The branches with [prev_state] or [prev_action] still [None] are those
    of [QLearningAgent.step]. *)
Definition step (state : Z) (reward : double) : Py self (Z * bool) :=
  let* t := gets q in
  let* current_q := lift_outcome (getitem t state) in
  let* action := epsilon_greedy current_q in
  let* ps := gets prev_state in
  let* pa := gets prev_action in
  match ps, pa with
  | Some ps, Some pa =>
      let* cur_val := lift_outcome (getitem2 t ps pa) in
      let* n := gets num_actions in
      let* new_val :=
        step_loop (range (Z.to_nat n)) state reward cur_val
          (of_Z (-100000000)) in
      let* t' := lift_outcome (setitem2 t ps pa new_val) in
      modify (set_q t') ;;
      let* d := gets delta in
      if ltb (abs (sub new_val cur_val)) d then ret (action, true)
      else ret (action, false)
  | Some ps, None => lift_outcome (getitem t ps) ;; raise ValueError
  | None, Some pa => lift_outcome (getitem t pa) ;; raise ValueError
  | None, None => raise ValueError
  end.
End WithGenerator.
Arguments self G : clear implicits.
End QLearningAgent64.

(** * Specification vocabulary

    The predicates, reference functions and concrete instances in which the
    properties below are stated. *)

(** ** Sampling *)

(** What [choice(a, p=p)] checks about [p] before drawing. *)
Definition accepted (n : nat) (p : list Q) : Prop :=
  length p = n /\ Forall (Qle 0) p /\ Qabs (np_sum p - 1) <= choice_atol.

(** The index [choice(a, p=p)] reads for the uniform draw [u]. *)
Definition inverse_cdf (p : list Q) (u : Q) : nat :=
  let cdf := cumsum p in
  searchsorted_right (map (fun c => c / List.last cdf 0) cdf) u.

(** ** A concrete generator

    A linear congruential generator on 31 bits, an instance of the interface
    on which the model can be run. *)

Module Lcg.
Definition modulus : Z := 2147483648.

Definition next (s : Z) : Z := (1103515245 * s + 12345) mod modulus.

Definition sample (s : Z) : Q * Z := (Qmake (next s) 2147483648, next s).

Definition below (high s : Z) : Z * Z := (next s mod high, next s)%Z.

Lemma sample_range (s : Z) : 0 <= fst (sample s) /\ fst (sample s) < 1.
Proof.
  pose proof (Z.mod_pos_bound (1103515245 * s + 12345) modulus eq_refl)
    as B.
  unfold sample, next. cbn [fst]. unfold Qle, Qlt. cbn [Qnum Qden].
  change (Z.pos 2147483648) with modulus.
  change (Qnum 0) with 0%Z. change (Qnum 1) with 1%Z.
  change (Z.pos (Qden 0)) with 1%Z. change (Z.pos (Qden 1)) with 1%Z.
  lia.
Qed.

Lemma below_range (high s : Z) :
  (0 < high)%Z -> (0 <= fst (below high s) < high)%Z.
Proof. intros Hh. simpl. now apply Z.mod_pos_bound. Qed.

#[export] Instance generator : RandomState Z := {|
  seed_state := fun seed => (seed mod modulus)%Z;
  random_sample := sample;
  random_below := below;
  random_sample_range := sample_range;
  random_below_range := below_range
|}.
End Lcg.

(** ** Environment *)

Module EnvironmentSpec.
Import ExampleEnvironment.

Section WithGenerator.
Context {G : Type} `{RandomState G}.

(** The three tables are the literals of [__init__]; no method assigns
    them. *)
Definition tables_ok (e : self G) : Prop :=
  grid e = the_grid /\ rewards e = the_rewards /\
  tran_matrix e = the_tran_matrix.

(** An environment on which [start] has run: its location is state [s]. *)
Definition started (e : self G) (s : Z) : Prop :=
  tables_ok e /\ cur_loc e = Some s /\ (0 <= s < 4)%Z.

Definition env_ok (e : self G) : Prop :=
  tables_ok e /\
  match cur_loc e with
  | Some s => (0 <= s < 4)%Z
  | None => True
  end.

(** The calls a driver can make. *)
Inductive call : Type := Start | Step (action : Z).

Definition perform (e : self G) (c : call) : self G :=
  match c with
  | Start => snd (start e)
  | Step action => snd (step action e)
  end.

Definition run (calls : list call) (e : self G) : self G :=
  fold_left perform calls e.

End WithGenerator.

#[local] Existing Instance Lcg.generator.

(** The environment seeded with 3, after [start()]: it sits in state 0. *)
Definition started_env : self Z :=
  snd (start (__init__ {| info_seed := Some 3%Z |})).

End EnvironmentSpec.

(** ** Value iteration *)

Module ValueIterationSpec.
Import ExampleEnvironment ValueIteration.

(** The value [np.sum(row * (r + gamma * sv))] of one action, and the best
    of them over the rewards [rs] of a state. *)
Definition backup (r gamma : Q) (row sv : list Q) : Q :=
  np_sum (zip_mul row (scalar_add r (scalar_mul gamma sv))).

Definition best_backup (gamma : Q) (row rs sv : list Q) : Q :=
  match map (fun r => backup r gamma row sv) rs with
  | [] => 0
  | v :: vs => fold_left pymax vs v
  end.

Section WithGenerator.
Context {G : Type} `{RandomState G}.

(** A four-state, three-action model with non-negative rewards and
    non-negative transition weights, visited over states [0 .. 3]. *)
Definition model_ok (env : self G) : Prop :=
  Forall (fun s => (0 <= s < 4)%Z) (grid env) /\
  forall s, (0 <= s < 4)%Z ->
    exists row rs,
      tran_matrix env !! Z.to_nat s = Some row /\
      length row = 4%nat /\ Forall (Qle 0) row /\
      rewards env !! Z.to_nat s = Some rs /\
      length rs = 3%nat /\ Forall (Qle 0) rs.

(** No entry exceeds its own backup: the invariant of the iteration. *)
Definition improving (env : self G) (gamma : Q) (sv : list Q) : Prop :=
  length sv = 4%nat /\
  forall s row rs cur, (0 <= s < 4)%Z ->
    tran_matrix env !! Z.to_nat s = Some row ->
    rewards env !! Z.to_nat s = Some rs ->
    sv !! Z.to_nat s = Some cur ->
    cur <= best_backup gamma row rs sv.

(** The locals when the [while] loop is first reached. *)
Definition initial (theta : Q) : locals :=
  {| s_vals := replicate 4 0; delta := theta * 10 |}.

(** The locals after [n] passes of the [while] body. *)
Definition after_sweeps (env : self G) (gamma : Q) (n : nat) (l : locals)
  : locals :=
  Nat.iter n (fun l => snd (sweep env gamma (range 3) l)) l.

(** The locals inside a pass begun in [l], after the first [k] states of
    the grid have been assigned. *)
Definition within_sweep (env : self G) (gamma : Q) (k : nat) (l : locals)
  : locals :=
  snd (for_each (take k (grid env)) (visit env gamma (range 3))
         (set_delta 0 l)).

End WithGenerator.
End ValueIterationSpec.

(** ** Agent *)

Module AgentSpec.
Import QLearningAgent.

(** [m] is the maximum of [vs]. *)
Definition is_max (m : Q) (vs : list Q) : Prop :=
  In m vs /\ Forall (fun v => v <= m) vs.

(** The indices of [vs], in increasing order, whose value equals [m]. *)
Definition indices_equal_to (m : Q) (vs : list Q) : list Z :=
  List.filter
    (fun i => match vs !! Z.to_nat i with
              | Some v => Qeq_bool v m
              | None => false
              end)
    (range (length vs)).

(** The same list, computed along [vs] from the index [i] of its head. *)
Fixpoint tied_from (i : Z) (vs : list Q) (m : Q) : list Z :=
  match vs with
  | [] => []
  | v :: rest =>
      if Qeq_bool v m then i :: tied_from (i + 1) rest m
      else tied_from (i + 1) rest m
  end.

Section WithGenerator.
Context {G : Type} `{RandomState G}.

(** The shape of the agent that [__init__] sets up and no method
    changes. *)
Definition agent_ok (a : self G) : Prop :=
  num_actions a = 3%Z /\ num_states a = 4%Z /\
  length (q a) = 4%nat /\ Forall (fun row => length row = 3%nat) (q a).

(** Indices numpy accepts for an axis of length [len]. *)
Definition valid_index (len : nat) (i : Z) : Prop :=
  (- Z.of_nat len <= i < Z.of_nat len)%Z.

(** The entry [t[i][j]] of a table, by position. *)
Definition entry (t : list (list Q)) (i j : nat) : option Q :=
  match t !! i with
  | Some row => row !! j
  | None => None
  end.

(** The candidate value of [step] for the next-state value [next]. *)
Definition candidate (a : self G) (reward cur_val next : Q) : Q :=
  cur_val + step_size a * (reward + discount a * next - cur_val).

(** The update rule of the specification, for the maximum [m] of
    [Q[state]]. *)
Definition spec_update (a : self G) (reward cur_val m : Q) : Q :=
  cur_val + step_size a * (reward + discount a * m - cur_val).

End WithGenerator.

#[local] Existing Instance Lcg.generator.

(** The configuration of the notebook's experiment. *)
Definition notebook_info : agent_info :=
  {| info_discount := Some (9 # 10);
     info_step_size := Some (1 # 2);
     info_epsilon := Some (1 # 2);
     info_delta := Some (1 # 1000);
     info_seed := Some 0%Z |}.

Definition fresh_agent : self Z := __init__ notebook_info.

(** The agent after [start(0)]: it chose action 1 and remembers [(0, 1)]. *)
Definition started_agent : self Z := snd (start 0 fresh_agent).

End AgentSpec.

(** ** Bounds *)

Module BoundSpec.

(** Four entries, each between 0 and [M]. *)
Definition bounded (M : Q) (sv : list Q) : Prop :=
  length sv = 4%nat /\ Forall (fun v => 0 <= v /\ v <= M) sv.


End BoundSpec.

(** ** Sequences of calls on an agent *)

Module AgentCalls.
Import QLearningAgent.

Section WithGenerator.
Context {G : Type} `{RandomState G}.

(** The calls a driver can make on an agent. *)
Inductive call : Type :=
| Start (state : Z)
| Step (state : Z) (reward : Q).

Definition perform (a : self G) (c : call) : self G :=
  match c with
  | Start state => snd (start state a)
  | Step state reward => snd (step state reward a)
  end.

Definition run (calls : list call) (a : self G) : self G :=
  fold_left perform calls a.

End WithGenerator.

(** The notebook's configuration with [epsilon] replaced. *)
Definition with_epsilon (eps : Q) : agent_info :=
  {| info_discount := Some (9 # 10);
     info_step_size := Some (1 # 2);
     info_epsilon := Some eps;
     info_delta := Some (1 # 1000);
     info_seed := Some 0%Z |}.

End AgentCalls.

(** ** The experiment loop *)

Module ExperimentSpec.
Import Experiment.
Module Env := ExampleEnvironment.
Module Ag := QLearningAgent.

Section WithGenerator.
Context {G : Type} `{RandomState G}.

(** What holds of the locals whenever the loop condition is tested: the
    environment sits in [next_state], the agent remembers the first state
    and action, its parameters are those it was built with, and its table
    is the initial one except at the remembered entry. *)
Definition invariant (a0 : Ag.self G) (s0 act0 : Z) (l : locals G) : Prop :=
  EnvironmentSpec.started (env l) (next_state l) /\
  AgentSpec.agent_ok (agent l) /\
  Ag.prev_state (agent l) = Some s0 /\
  Ag.prev_action (agent l) = Some act0 /\
  (0 <= s0 < 4)%Z /\ (0 <= act0 < 3)%Z /\
  Ag.step_size (agent l) = Ag.step_size a0 /\
  Ag.discount (agent l) = Ag.discount a0 /\
  0 <= next_reward l /\ next_reward l <= 3 /\
  forall i j, (i, j) <> (Z.to_nat s0, Z.to_nat act0) ->
    AgentSpec.entry (Ag.q (agent l)) i j = AgentSpec.entry (Ag.q a0) i j.

End WithGenerator.

(** The seeds [RandomState_call] takes: an absent key, read as 0, or an
    integer of [0 .. 2^32 - 1].  For any other seed the constructor raises
    [ValueError], a path [ExampleEnvironment.__init__] and
    [QLearningAgent.__init__] leave out. *)
Definition seed_accepted (seed : option Z) : Prop :=
  match seed with
  | Some s => (0 <= s < 2 ^ 32)%Z
  | None => True
  end.

(** A run that stops after one step: with [delta = 10] the first update,
    which moves the entry by less than 2, already sets the flag. *)
Definition quick_info : Ag.agent_info :=
  {| Ag.info_discount := Some (9 # 10);
     Ag.info_step_size := Some (1 # 2);
     Ag.info_epsilon := Some (1 # 2);
     Ag.info_delta := Some 10;
     Ag.info_seed := Some 0%Z |}.

End ExperimentSpec.

(** ** The agent on doubles *)

Module Agent64Spec.
Import Binary64 QLearningAgent64.

(** The entry [t[i][j]] of a table, by position. *)
Definition entry (t : list (list double)) (i j : nat) : option double :=
  match t !! i with
  | Some row => row !! j
  | None => None
  end.

Section WithGenerator.
Context {G : Type} `{RandomState G}.

(** The shape of the agent that [__init__] sets up. *)
Definition agent_ok (a : self G) : Prop :=
  num_actions a = 3%Z /\ num_states a = 4%Z /\
  length (q a) = 4%nat /\ Forall (fun row => length row = 3%nat) (q a).

(** The candidate value of [step] for the next-state value [next]. *)
Definition candidate (a : self G) (reward cur_val next : double)
  : double :=
  add cur_val
    (mul (step_size a) (sub (add reward (mul (discount a) next)) cur_val)).

End WithGenerator.

#[local] Existing Instance Lcg.generator.

(** [2^-55], [1.0] and [0.0] *)
Definition tiny : double := of_Q (1 # 2 ^ 55).
Definition one : double := of_Z 1.
Definition zero : double := of_Z 0.

(** An agent with step size 1, discount 0 and threshold 1. *)
Definition unit_info : agent_info :=
  {| info_discount := Some zero;
     info_step_size := Some one;
     info_epsilon := Some (of_Q (1 # 2));
     info_delta := Some one;
     info_seed := Some 0%Z |}.

(** That agent after [start(0)] and [step(0, 2**-55)]: the remembered entry
    now holds [2^-55]. *)
Definition tiny_agent : option (self Z) :=
  match __init__ unit_info with
  | Return a0 => Some (snd (step 0 tiny (snd (start 0 a0))))
  | Raise _ => None
  end.

(** The configuration of the notebook's experiment, and the agent after
    [start(0)]. *)
Definition notebook_info : agent_info :=
  {| info_discount := Some (of_Q (9 # 10));
     info_step_size := Some (of_Q (1 # 2));
     info_epsilon := Some (of_Q (1 # 2));
     info_delta := Some (of_Q (1 # 1000));
     info_seed := Some 0%Z |}.

Definition started_agent : option (self Z) :=
  match __init__ notebook_info with
  | Return a0 => Some (snd (start 0 a0))
  | Raise _ => None
  end.

End Agent64Spec.

(** * Properties *)

(** ** Comparisons and [max] *)

Lemma Qltb_lt (a b : Q) : Qltb a b = true <-> a < b.
Proof.
  unfold Qltb. rewrite negb_true_iff. split.
  - intros E. apply Qnot_le_lt. intros L.
    apply Qle_bool_iff in L. congruence.
  - intros L. destruct (Qle_bool b a) eqn:E; trivial.
    apply Qle_bool_iff in E. lra.
Qed.

Lemma Qltb_ge (a b : Q) : Qltb a b = false <-> b <= a.
Proof.
  unfold Qltb. rewrite negb_false_iff. apply Qle_bool_iff.
Qed.

Lemma pymax_cases (a b : Q) :
  (a < b /\ pymax a b = b) \/ (b <= a /\ pymax a b = a).
Proof.
  unfold pymax. destruct (Qltb a b) eqn:E.
  - left. split; trivial. now apply Qltb_lt.
  - right. split; trivial. now apply Qltb_ge.
Qed.

Lemma pymax_ge_l (a b : Q) : a <= pymax a b.
Proof. destruct (pymax_cases a b) as [[L ->]|[L ->]]; lra. Qed.

Lemma pymax_ge_r (a b : Q) : b <= pymax a b.
Proof. destruct (pymax_cases a b) as [[L ->]|[L ->]]; lra. Qed.

Lemma pymax_mono (a b a' b' : Q) :
  a <= a' -> b <= b' -> pymax a b <= pymax a' b'.
Proof.
  intros La Lb.
  destruct (pymax_cases a b) as [[L ->]|[L ->]];
    destruct (pymax_cases a' b') as [[L' ->]|[L' ->]]; lra.
Qed.

(** ** Indexing *)

Lemma py_index_nonneg (len : nat) (i : Z) :
  (0 <= i < Z.of_nat len)%Z -> py_index len i = Some (Z.to_nat i).
Proof.
  intros [L U]. unfold py_index.
  apply Z.leb_le in L. apply Z.ltb_lt in U. now rewrite L, U.
Qed.

Lemma py_index_negative (len : nat) (i : Z) :
  (- Z.of_nat len <= i < 0)%Z ->
  py_index len i = Some (Z.to_nat (Z.of_nat len + i)).
Proof.
  intros [L U]. unfold py_index.
  assert (E : (0 <=? i)%Z = false) by (apply Z.leb_gt; lia).
  apply Z.leb_le in L. apply Z.ltb_lt in U. now rewrite E, L, U.
Qed.

Lemma py_index_outside (len : nat) (i : Z) :
  (i < - Z.of_nat len \/ Z.of_nat len <= i)%Z -> py_index len i = None.
Proof.
  intros D. unfold py_index.
  destruct (0 <=? i)%Z eqn:E1, (i <? Z.of_nat len)%Z eqn:E2,
    (- Z.of_nat len <=? i)%Z eqn:E3, (i <? 0)%Z eqn:E4; simpl; trivial;
    repeat match goal with
    | E : (_ <=? _)%Z = true |- _ => apply Z.leb_le in E
    | E : (_ <=? _)%Z = false |- _ => apply Z.leb_gt in E
    | E : (_ <? _)%Z = true |- _ => apply Z.ltb_lt in E
    | E : (_ <? _)%Z = false |- _ => apply Z.ltb_ge in E
    end; lia.
Qed.

Lemma py_index_bound (len : nat) (i : Z) (k : nat) :
  py_index len i = Some k -> (k < len)%nat.
Proof.
  unfold py_index.
  destruct (0 <=? i)%Z eqn:E1, (i <? Z.of_nat len)%Z eqn:E2,
    (- Z.of_nat len <=? i)%Z eqn:E3, (i <? 0)%Z eqn:E4; simpl;
    intros [= <-];
    repeat match goal with
    | E : (_ <=? _)%Z = true |- _ => apply Z.leb_le in E
    | E : (_ <=? _)%Z = false |- _ => apply Z.leb_gt in E
    | E : (_ <? _)%Z = true |- _ => apply Z.ltb_lt in E
    | E : (_ <? _)%Z = false |- _ => apply Z.ltb_ge in E
    end; lia.
Qed.

Lemma getitem_lookup {A} (l : list A) (i : Z) (x : A) :
  (0 <= i)%Z -> l !! Z.to_nat i = Some x -> getitem l i = Return x.
Proof.
  intros L E. unfold getitem. rewrite py_index_nonneg.
  - now rewrite E.
  - apply lookup_lt_Some in E. lia.
Qed.

Lemma getitem_outside {A} (l : list A) (i : Z) :
  (i < - Z.of_nat (length l) \/ Z.of_nat (length l) <= i)%Z ->
  getitem l i = Raise IndexError.
Proof.
  intros D. unfold getitem. now rewrite py_index_outside.
Qed.

Lemma getitem_Return {A} (l : list A) (i : Z) (x : A) :
  getitem l i = Return x ->
  exists k, py_index (length l) i = Some k /\ l !! k = Some x.
Proof.
  unfold getitem. destruct (py_index (length l) i) as [k|]; [|discriminate].
  destruct (l !! k) as [y|] eqn:E; [|discriminate].
  intros [= <-]. eauto.
Qed.

Lemma getitem_In {A} (l : list A) (i : Z) (x : A) :
  getitem l i = Return x -> In x l.
Proof.
  intros E. apply getitem_Return in E as (k & _ & E).
  apply list_elem_of_In. eapply list_elem_of_lookup_2, E.
Qed.

Lemma getitem_total {A} (l : list A) (i : Z) :
  (- Z.of_nat (length l) <= i < Z.of_nat (length l))%Z ->
  exists x, getitem l i = Return x.
Proof.
  intros R. unfold getitem.
  destruct (py_index (length l) i) as [k|] eqn:E.
  - destruct (lookup_lt_is_Some_2 l k) as [x Ex].
    + eapply py_index_bound, E.
    + exists x. now rewrite Ex.
  - destruct (Z_lt_le_dec i 0).
    + rewrite py_index_negative in E by lia. discriminate.
    + rewrite py_index_nonneg in E by lia. discriminate.
Qed.

(** ** Sampling *)

Lemma np_sum_nonneg (p : list Q) : Forall (Qle 0) p -> 0 <= np_sum p.
Proof.
  induction 1 as [|x p Hx _ IH].
  - unfold np_sum; simpl. lra.
  - change (0 <= x + np_sum p). lra.
Qed.

Lemma last_cumsum_from (acc : Q) (p : list Q) (d : Q) :
  p <> [] -> List.last (cumsum_from acc p) d == acc + np_sum p.
Proof.
  revert acc. induction p as [|x p IH]; intros acc Hp; [congruence|].
  destruct p as [|y p].
  - simpl. lra.
  - change (List.last (cumsum_from acc (x :: y :: p)) d)
      with (List.last (cumsum_from (acc + x) (y :: p)) d).
    rewrite IH by discriminate.
    change (np_sum (x :: y :: p)) with (x + np_sum (y :: p)). lra.
Qed.

Lemma length_cumsum_from (acc : Q) (p : list Q) :
  length (cumsum_from acc p) = length p.
Proof.
  revert acc. induction p as [|x p IH]; intros acc; simpl; [|rewrite IH];
    reflexivity.
Qed.

Lemma last_map_nonempty {A B} (f : A -> B) (l : list A) (d : A) (d' : B) :
  l <> [] -> List.last (map f l) d' = f (List.last l d).
Proof.
  induction l as [|x l IH]; intros Hl; [congruence|].
  destruct l as [|y l]; [reflexivity|].
  change (List.last (map f (y :: l)) d' = f (List.last (y :: l) d)).
  apply IH. discriminate.
Qed.

(** The insertion point lies inside the array as soon as the last entry
    exceeds the probe. *)
Lemma searchsorted_right_lt (cdf : list Q) (u : Q) :
  cdf <> [] -> u < List.last cdf 0 ->
  (searchsorted_right cdf u < length cdf)%nat.
Proof.
  induction cdf as [|c cdf IH]; intros Hne Hu; [congruence|].
  simpl. destruct (Qle_bool c u) eqn:E; [|lia].
  destruct cdf as [|c' cdf].
  - simpl in Hu. apply Qle_bool_iff in E. lra.
  - apply Nat.succ_lt_mono with (n := searchsorted_right (c' :: cdf) u)
                                (m := length (c' :: cdf)).
    apply IH; [discriminate|exact Hu].
Qed.

Lemma inverse_cdf_lt (p : list Q) (u : Q) :
  p <> [] -> Qabs (np_sum p - 1) <= choice_atol -> u < 1 ->
  (inverse_cdf p u < length p)%nat.
Proof.
  intros Hp Hs Hu. unfold inverse_cdf, cumsum.
  set (cdf := cumsum_from 0 p).
  assert (Hlen : length cdf = length p) by apply length_cumsum_from.
  assert (Hne : cdf <> []) by (destruct p, cdf; simpl in *; congruence).
  assert (Ht : List.last cdf 0 == 0 + np_sum p)
    by (apply last_cumsum_from, Hp).
  assert (Hpos : 0 < List.last cdf 0).
  { rewrite Ht. unfold choice_atol in Hs.
    apply Qabs_Qle_condition in Hs as [Hs _].
    assert ((1 # 2 ^ 26) <= 1 # 2) by (unfold Qle; simpl; lia). lra. }
  rewrite <- Hlen, <- (length_map (fun c => c / List.last cdf 0) cdf).
  apply searchsorted_right_lt.
  - destruct cdf; simpl; congruence.
  - rewrite (last_map_nonempty _ cdf 0 0 Hne).
    assert (E : List.last cdf 0 / List.last cdf 0 == 1) by (field; lra).
    rewrite E. exact Hu.
Qed.

Section GeneratorProps.
Context {G : Type} `{RandomState G}.

Lemma rand_eq (g : G) :
  rand g = (Return (fst (random_sample g)), snd (random_sample g)).
Proof. unfold rand. now destruct (random_sample g). Qed.

Lemma randint_eq (high : Z) (g : G) :
  (0 < high)%Z ->
  randint high g
  = (Return (fst (random_below high g)), snd (random_below high g)).
Proof.
  intros Hh. unfold randint.
  destruct (high <=? 0)%Z eqn:E; [apply Z.leb_le in E; lia|].
  now destruct (random_below high g).
Qed.

(** [choice(a)] on a non-empty sequence returns the entry at the
    generator's integer draw below [len(a)]. *)
Lemma choice_eq {A} (a : list A) (g : G) :
  a <> [] ->
  exists x,
    a !! Z.to_nat (fst (random_below (Z.of_nat (length a)) g)) = Some x /\
    choice a g
    = (Return x, snd (random_below (Z.of_nat (length a)) g)).
Proof.
  intros Ha.
  assert (Hlen : (0 < Z.of_nat (length a))%Z)
    by (destruct a; simpl; [congruence|lia]).
  pose proof (random_below_range _ g Hlen) as Hr.
  destruct (lookup_lt_is_Some_2 a
              (Z.to_nat (fst (random_below (Z.of_nat (length a)) g))))
    as [x Ex]; [lia|].
  exists x. split; [exact Ex|].
  unfold choice. destruct a as [|a0 a']; [congruence|].
  unfold bind. cbv beta. rewrite randint_eq by exact Hlen.
  unfold lift_outcome. now rewrite (getitem_lookup _ _ x) by (lia || exact Ex).
Qed.

(** [choice(a, p=p)] with an accepted [p] returns the entry at the
    inverse-CDF index of the generator's uniform draw. *)
Lemma choice_p_eq {A} (a : list A) (p : list Q) (g : G) :
  a <> [] -> accepted (length a) p ->
  exists x,
    a !! inverse_cdf p (fst (random_sample g)) = Some x /\
    choice_p a p g = (Return x, snd (random_sample g)).
Proof.
  intros Ha (Hlen & Hnn & Hsum).
  assert (Hp : p <> []) by (destruct a, p; simpl in *; congruence).
  destruct (random_sample_range g) as [_ Hu].
  pose proof (inverse_cdf_lt p _ Hp Hsum Hu) as Hidx.
  destruct (lookup_lt_is_Some_2 a (inverse_cdf p (fst (random_sample g))))
    as [x Ex]; [lia|].
  exists x. split; [exact Ex|].
  unfold choice_p. destruct a as [|a0 a']; [congruence|].
  rewrite Hlen, Nat.eqb_refl. cbn [negb].
  assert (E1 : existsb (fun x => Qltb x 0) p = false).
  { apply not_true_is_false. intros E.
    apply existsb_exists in E as (y & Hy & Ey).
    apply Qltb_lt in Ey. rewrite Forall_forall in Hnn.
    apply list_elem_of_In in Hy. specialize (Hnn y Hy). lra. }
  rewrite E1.
  assert (E2 : Qltb choice_atol (Qabs (np_sum p - 1)) = false)
    by (apply Qltb_ge, Hsum).
  rewrite E2. unfold bind. cbv beta zeta. rewrite rand_eq.
  unfold lift_outcome.
  change (searchsorted_right _ (fst (random_sample g)))
    with (inverse_cdf p (fst (random_sample g))).
  rewrite (getitem_lookup _ _ x); [reflexivity|lia|].
  now rewrite Nat2Z.id.
Qed.

(** A rejected [p] raises before the generator is touched. *)
Lemma choice_p_rejects {A} (a : list A) (p : list Q) (g : G) :
  choice_atol < Qabs (np_sum p - 1) ->
  choice_p a p g = (Raise ValueError, g).
Proof.
  intros Hs. unfold choice_p. destruct a as [|a0 a']; [reflexivity|].
  destruct (negb _); [reflexivity|].
  destruct (existsb _ p); [reflexivity|].
  apply Qltb_lt in Hs. now rewrite Hs.
Qed.
End GeneratorProps.

(** The state read by inverse-CDF sampling has positive probability. *)
Lemma searchsorted_right_support (p : list Q) (acc t u : Q) (pr : Q) :
  0 < t -> acc / t <= u ->
  p !! searchsorted_right (map (fun c => c / t) (cumsum_from acc p)) u
    = Some pr ->
  0 < pr.
Proof.
  intros Ht. revert acc. induction p as [|x p IH]; intros acc Ha; [easy|].
  simpl. destruct (Qle_bool ((acc + x) / t) u) eqn:E.
  - apply Qle_bool_iff in E. simpl. apply IH, E.
  - simpl. intros [= <-].
    assert (L : u < (acc + x) / t).
    { apply Qnot_le_lt. intros L. apply Qle_bool_iff in L. congruence. }
    assert (Hi : 0 < / t) by now apply Qinv_lt_0_compat.
    unfold Qdiv in Ha, L. clear IH E. set (i := / t) in *. clearbody i.
    assert (Hx : 0 < x * i) by lra.
    apply Qnot_le_lt. intros Hneg.
    assert (0 <= (- x) * i) by (apply Qmult_le_0_compat; lra).
    lra.
Qed.

Lemma inverse_cdf_support (p : list Q) (u pr : Q) :
  p <> [] -> Qabs (np_sum p - 1) <= choice_atol -> 0 <= u ->
  p !! inverse_cdf p u = Some pr -> 0 < pr.
Proof.
  intros Hp Hs Hu. unfold inverse_cdf, cumsum.
  apply searchsorted_right_support.
  - rewrite last_cumsum_from by exact Hp.
    apply Qabs_Qle_condition in Hs as [Hs _]. unfold choice_atol in Hs.
    assert ((1 # 2 ^ 26) <= 1 # 2) by (unfold Qle; simpl; lia). lra.
  - unfold Qdiv. now rewrite Qmult_0_l.
Qed.

(** ** 1. Environment *)

Module EnvironmentProps.
Import ExampleEnvironment EnvironmentSpec.

Lemma Qle_by_computation (a b : Q) : Qle_bool a b = true -> a <= b.
Proof. apply Qle_bool_iff. Qed.

(** Every row of the literal transition matrix passes the check that
    [choice] makes on [p]: four non-negative entries of sum exactly 1. *)
Lemma rows_accepted (s : Z) :
  (0 <= s < 4)%Z ->
  exists p, the_tran_matrix !! Z.to_nat s = Some p /\
            accepted 4 p /\ np_sum p == 1.
Proof.
  intros Hs.
  assert (C : s = 0%Z \/ s = 1%Z \/ s = 2%Z \/ s = 3%Z) by lia.
  destruct C as [-> | [-> | [-> | ->]]];
    (eexists; split; [reflexivity|]; split; [split; [reflexivity|split]|]);
    try (repeat constructor; apply Qle_by_computation; reflexivity);
    try (apply Qle_by_computation; reflexivity);
    reflexivity.
Qed.

Lemma rewards_defined (s a : Z) :
  (0 <= s < 4)%Z -> (0 <= a < 3)%Z ->
  exists row r, the_rewards !! Z.to_nat s = Some row /\
                length row = 3%nat /\ row !! Z.to_nat a = Some r.
Proof.
  intros Hs Ha.
  assert (Cs : s = 0%Z \/ s = 1%Z \/ s = 2%Z \/ s = 3%Z) by lia.
  assert (Ca : a = 0%Z \/ a = 1%Z \/ a = 2%Z) by lia.
  destruct Cs as [-> | [-> | [-> | ->]]], Ca as [-> | [-> | ->]];
    do 2 eexists; repeat split; reflexivity.
Qed.

Lemma rewards_rows (s : Z) :
  (0 <= s < 4)%Z ->
  exists row, the_rewards !! Z.to_nat s = Some row /\ length row = 3%nat.
Proof.
  intros Hs. destruct (rewards_defined s 0 Hs) as (row & _ & E & L & _);
    [lia|eauto].
Qed.

Lemma grid_members (k : nat) (s : Z) :
  the_grid !! k = Some s -> (0 <= s < 4)%Z.
Proof.
  destruct k as [|[|[|[|k]]]]; simpl; intros [= <-]; lia.
Qed.

Section WithGenerator.
Context {G : Type} `{RandomState G}.

Lemma env_init_ok (info : env_info) : env_ok (__init__ info).
Proof. repeat split. Qed.

Lemma env_start_eq (e : self G) :
  tables_ok e ->
  exists s,
    the_grid !! Z.to_nat (fst (random_below 4 (rand_generator e))) = Some s
    /\ start e
       = (Return s,
          set_cur_loc (Some s)
            (set_rand_generator (snd (random_below 4 (rand_generator e)))
               e)).
Proof.
  intros (Hg & _ & _).
  destruct (choice_eq the_grid (rand_generator e)) as (s & Es & Ec);
    [discriminate|].
  exists s. split; [exact Es|].
  unfold start, bind, gets, zoom, modify, ret. rewrite Hg, Ec.
  reflexivity.
Qed.

(** [step] once the two table reads have succeeded. *)
Lemma env_step_eq (e : self G) (action s : Z) (row p : list Q) (r : Q) :
  cur_loc e = Some s ->
  getitem (rewards e) s = Return row ->
  getitem row action = Return r ->
  getitem (tran_matrix e) s = Return p ->
  step action e
  = match choice_p (grid e) p (rand_generator e) with
    | (Return next_state, g') =>
        (Return (next_state, r),
         set_cur_loc (Some next_state) (set_rand_generator g' e))
    | (Raise x, g') => (Raise x, set_rand_generator g' e)
    end.
Proof.
  intros Hc Hrow Hr Hp.
  unfold step, bind, gets, lift_outcome, zoom, modify, ret.
  rewrite Hc. simpl getitem_opt. rewrite Hrow, Hr, Hp.
  destruct (choice_p (grid e) p (rand_generator e)) as [[ns|x] g'];
    reflexivity.
Qed.

Lemma step_valid (e : self G) (s action : Z) :
  started e s -> (0 <= action < 3)%Z ->
  exists row p reward next_state pr,
    the_rewards !! Z.to_nat s = Some row /\
    row !! Z.to_nat action = Some reward /\
    the_tran_matrix !! Z.to_nat s = Some p /\
    the_grid !! inverse_cdf p (fst (random_sample (rand_generator e)))
      = Some next_state /\
    p !! inverse_cdf p (fst (random_sample (rand_generator e)))
      = Some pr /\ 0 < pr /\
    step action e
    = (Return (next_state, reward),
       set_cur_loc (Some next_state)
         (set_rand_generator (snd (random_sample (rand_generator e))) e)).
Proof.
  intros ((Hg & Hr & Ht) & Hc & Hs) Ha.
  destruct (rewards_defined s action Hs Ha) as (row & r & Erow & _ & Er).
  destruct (rows_accepted s Hs) as (p & Ep & Hacc & _).
  destruct (choice_p_eq the_grid p (rand_generator e))
    as (ns & Ens & Ec); [discriminate|exact Hacc|].
  destruct Hacc as (Hlen & Hnn & Hsum).
  assert (Hp : p <> []) by (destruct p; [discriminate|congruence]).
  destruct (random_sample_range (rand_generator e)) as [Hu0 Hu1].
  destruct (lookup_lt_is_Some_2 p
              (inverse_cdf p (fst (random_sample (rand_generator e)))))
    as [pr Epr]; [now apply inverse_cdf_lt|].
  exists row, p, r, ns, pr. repeat split; trivial.
  - eapply inverse_cdf_support; eauto.
  - rewrite (env_step_eq e action s row p r); trivial.
    + now rewrite Hg, Ec.
    + rewrite Hr. apply getitem_lookup; [lia|exact Erow].
    + apply getitem_lookup; [lia|exact Er].
    + rewrite Ht. apply getitem_lookup; [lia|exact Ep].
Qed.

Lemma step_cases (e : self G) (action : Z) :
  env_ok e ->
  (exists x, step action e = (Raise x, e)) \/
  (exists s next_state reward g',
      cur_loc e = Some s /\ (0 <= next_state < 4)%Z /\
      step action e
      = (Return (next_state, reward),
         set_cur_loc (Some next_state) (set_rand_generator g' e))).
Proof.
  intros ((Hg & Hr & Ht) & Hloc).
  destruct (cur_loc e) as [s|] eqn:Hc.
  - destruct (rewards_rows s Hloc) as (row & Erow & Hlen).
    assert (Hrow : getitem (rewards e) s = Return row)
      by (rewrite Hr; apply getitem_lookup; [lia|exact Erow]).
    destruct (getitem row action) as [r|x] eqn:Er.
    + right.
      destruct (rows_accepted s Hloc) as (p & Ep & Hacc & _).
      destruct (choice_p_eq the_grid p (rand_generator e))
        as (ns & Ens & Ec); [discriminate|exact Hacc|].
      exists s, ns, r, (snd (random_sample (rand_generator e))).
      split; [reflexivity|]. split; [eapply grid_members, Ens|].
      rewrite (env_step_eq e action s row p r); trivial.
      * now rewrite Hg, Ec.
      * rewrite Ht. apply getitem_lookup; [lia|exact Ep].
    + left. exists x.
      unfold step, bind, gets, lift_outcome. rewrite Hc.
      simpl getitem_opt. now rewrite Hrow, Er.
  - left. exists TypeError.
    unfold step, bind, gets, lift_outcome. now rewrite Hc.
Qed.

Lemma perform_ok (e : self G) (c : call) :
  env_ok e ->
  env_ok (perform e c) /\
  (c = Start \/ is_Some (cur_loc e) -> is_Some (cur_loc (perform e c))).
Proof.
  intros Hok. destruct c as [|action]; simpl.
  - destruct (env_start_eq e (proj1 Hok)) as (s & Es & ->). simpl.
    split; [|eauto]. split; [exact (proj1 Hok)|].
    simpl. eapply grid_members, Es.
  - destruct (step_cases e action Hok)
      as [(x & ->) | (s & ns & r & g' & Hc & Hns & ->)]; simpl.
    + split; [exact Hok|]. now intros [|].
    + split; [|eauto]. split; [exact (proj1 Hok)|exact Hns].
Qed.

Lemma run_ok (calls : list call) (e : self G) :
  env_ok e ->
  env_ok (run calls e) /\
  (is_Some (cur_loc e) -> is_Some (cur_loc (run calls e))).
Proof.
  revert e. induction calls as [|c calls IH]; intros e Hok; [easy|].
  destruct (perform_ok e c Hok) as [Hok' Hs].
  destruct (IH _ Hok') as [Hok'' Hs'].
  split; [exact Hok''|]. intros Hsome. apply Hs', Hs. now right.
Qed.

Lemma grid_index (k : nat) (s : Z) :
  the_grid !! k = Some s -> k = Z.to_nat s.
Proof.
  destruct k as [|[|[|[|k]]]]; simpl; intros [= <-]; reflexivity.
Qed.

Lemma in_the_grid (s : Z) : (0 <= s < 4)%Z <-> In s the_grid.
Proof. unfold the_grid. simpl. lia. Qed.

(** C4. On a started environment at state [s], [step(a)] with a valid
    action returns [(next_state, reward)] where [reward] is
    [rewards[s][a]] and [next_state] is what
    [choice(grid, p = tran_matrix[s])] draws on the generator as it was
    before the call, a state to which row [s] gives positive probability;
    afterwards the current state is [next_state]. *)
Theorem step_reward_and_next_state (e : self G) (s action : Z) :
  started e s -> (0 <= action < 3)%Z ->
  exists row p reward next_state pr e',
    the_rewards !! Z.to_nat s = Some row /\
    row !! Z.to_nat action = Some reward /\
    the_tran_matrix !! Z.to_nat s = Some p /\
    choice_p (grid e) p (rand_generator e)
      = (Return next_state, rand_generator e') /\
    p !! Z.to_nat next_state = Some pr /\ 0 < pr /\
    step action e = (Return (next_state, reward), e') /\
    cur_loc e' = Some next_state.
Proof.
  intros Hst Ha.
  destruct (step_valid e s action Hst Ha)
    as (row & p & r & ns & pr & Erow & Er & Ep & Ens & Epr & Hpr & Estep).
  destruct Hst as ((Hg & _ & _) & _ & Hs).
  destruct (rows_accepted s Hs) as (p' & Ep' & Hacc & _).
  assert (p' = p) by congruence. subst p'.
  destruct (choice_p_eq the_grid p (rand_generator e))
    as (ns' & Ens' & Ec); [discriminate|exact Hacc|].
  assert (ns' = ns) by congruence. subst ns'.
  exists row, p, r, ns, pr.
  eexists. repeat split; try eassumption.
  - rewrite Hg. exact Ec.
  - now rewrite <- (grid_index _ _ Ens).
  - reflexivity.
Qed.

(** C6. From one environment state, two valid actions lead [step] to the
    same next state and the same environment afterwards (location and
    generator); only the reward depends on the action. *)
Theorem step_next_state_ignores_action (e : self G) (s a1 a2 : Z) :
  started e s -> (0 <= a1 < 3)%Z -> (0 <= a2 < 3)%Z ->
  exists next_state r1 r2 e',
    step a1 e = (Return (next_state, r1), e') /\
    step a2 e = (Return (next_state, r2), e').
Proof.
  intros Hst H1 H2.
  destruct (step_valid e s a1 Hst H1)
    as (row1 & p1 & r1 & ns1 & _ & _ & _ & Ep1 & Ens1 & _ & _ & E1).
  destruct (step_valid e s a2 Hst H2)
    as (row2 & p2 & r2 & ns2 & _ & _ & _ & Ep2 & Ens2 & _ & _ & E2).
  assert (p2 = p1) by congruence. subst p2.
  assert (ns2 = ns1) by congruence. subst ns2.
  exists ns1, r1, r2. eexists. split; [exact E1|exact E2].
Qed.

(** C8, as the code has it.  The reward lookup is a plain list read:
    an action [a >= 3] or [a < -3] raises [IndexError] before the
    generator or the location is touched.  (Actions [-3 .. -1] are
    accepted and read column [a + 3].) *)
Theorem step_rejects_action_out_of_range (e : self G) (s action : Z) :
  started e s -> (action < -3 \/ 3 <= action)%Z ->
  step action e = (Raise IndexError, e).
Proof.
  intros ((_ & Hr & _) & Hc & Hs) Ha.
  destruct (rewards_rows s Hs) as (row & Erow & Hlen).
  unfold step, bind, gets, lift_outcome. rewrite Hc. simpl getitem_opt.
  rewrite Hr, (getitem_lookup _ _ row) by (lia || exact Erow).
  rewrite getitem_outside; [reflexivity|]. rewrite Hlen. lia.
Qed.

(** C10. Whatever calls are made on a fresh environment, once [start] is
    among them the current state is one of [0, 1, 2, 3]; moreover, in any
    reachable environment [start] returns such a state and makes it
    current, and a [step] that returns has made its [next_state], again
    such a state, current. *)
Theorem current_state_stays_in_grid
    (info : env_info) (before after : list call) :
  (exists s, cur_loc (run (before ++ Start :: after) (__init__ info)) = Some s
             /\ In s [0; 1; 2; 3]%Z) /\
  (exists s e', start (run before (__init__ info)) = (Return s, e') /\
                In s [0; 1; 2; 3]%Z /\ cur_loc e' = Some s) /\
  (forall action next_state reward e',
      step action (run before (__init__ info))
        = (Return (next_state, reward), e') ->
      In next_state [0; 1; 2; 3]%Z /\ cur_loc e' = Some next_state).
Proof.
  destruct (run_ok before (__init__ info) (env_init_ok info)) as [Hok _].
  split; [|split].
  - unfold run. rewrite fold_left_app. simpl fold_left.
    fold (run before (__init__ info)).
    destruct (perform_ok _ Start Hok) as [Hok1 Hs1].
    destruct (run_ok after _ Hok1) as [[_ Hloc] Hs2].
    destruct (Hs2 (Hs1 (or_introl eq_refl))) as [s Es].
    unfold run in Es, Hloc. rewrite Es in Hloc.
    exists s. split; [exact Es|]. now apply in_the_grid.
  - destruct (env_start_eq _ (proj1 Hok)) as (s & Es & E).
    exists s. eexists. split; [exact E|]. split; [|reflexivity].
    eapply in_the_grid, grid_members, Es.
  - intros action ns r e' E.
    destruct (step_cases _ action Hok)
      as [(x & E') | (s & ns' & r' & g' & _ & Hns & E')];
      rewrite E' in E; [discriminate|].
    injection E as <- <- <-. split; [|reflexivity].
    now apply in_the_grid.
Qed.
End WithGenerator.

(** *** Concrete runs *)

#[local] Existing Instance Lcg.generator.

Lemma started_env_started : started started_env 0.
Proof. repeat split; try reflexivity; lia. Defined.

Lemma step_reward_and_next_state_witness :
  started started_env 0 /\ (0 <= 2 < 3)%Z /\
  exists next_state reward e',
    step 2 started_env = (Return (next_state, reward), e') /\
    cur_loc e' = Some next_state.
Proof.
  split; [exact started_env_started|]. split; [lia|].
  destruct (step_reward_and_next_state started_env 0 2 started_env_started)
    as (_ & _ & r & ns & _ & e' & _ & _ & _ & _ & _ & _ & E & Ec); [lia|].
  exists ns, r, e'. split; [exact E|exact Ec].
Defined.

Lemma step_next_state_ignores_action_witness :
  started started_env 0 /\ (0 <= 0 < 3)%Z /\ (0 <= 2 < 3)%Z /\
  exists next_state r1 r2 e',
    step 0 started_env = (Return (next_state, r1), e') /\
    step 2 started_env = (Return (next_state, r2), e').
Proof.
  split; [exact started_env_started|]. split; [lia|]. split; [lia|].
  apply (step_next_state_ignores_action started_env 0 0 2);
    [exact started_env_started|lia|lia].
Defined.

Lemma step_rejects_action_out_of_range_witness :
  started started_env 0 /\ (5 < -3 \/ 3 <= 5)%Z /\
  step 5 started_env = (Raise IndexError, started_env).
Proof.
  split; [exact started_env_started|]. split; [lia|].
  apply (step_rejects_action_out_of_range started_env 0 5);
    [exact started_env_started|lia].
Defined.

(** C8 fails as stated: [-1] lies outside [{0, 1, 2}], yet in state 0
    [step(-1)] returns, with the reward of the last column. *)
Lemma step_accepts_negative_action :
  started started_env 0 /\ ~ (0 <= -1 < 3)%Z /\
  fst (step (-1) started_env) = Return (0%Z, 2).
Proof. split; [exact started_env_started|]. split; [lia|reflexivity]. Qed.

(** *** Construction *)

(** The constructor reads a seed and nothing else: the matrix it installs is
    the literal one, each of whose rows has four non-negative entries of sum
    exactly 1, and no location is set. *)
Lemma construction_installs_stochastic_rows
    {G : Type} `{RandomState G} (info : env_info) :
  tran_matrix (__init__ info) = the_tran_matrix /\
  cur_loc (__init__ info) = None /\
  Forall (fun row => length row = 4%nat /\ Forall (Qle 0) row /\
                     np_sum row == 1)
         (tran_matrix (__init__ info)).
Proof.
  split; [reflexivity|]. split; [reflexivity|].
  apply Forall_lookup_2. intros k row Ek.
  assert (Hk : (k < 4)%nat) by (apply lookup_lt_Some in Ek; exact Ek).
  destruct (rows_accepted (Z.of_nat k)) as (p & Ep & (Hl & Hn & _) & Hs);
    [lia|].
  rewrite Nat2Z.id in Ep. simpl in Ek.
  assert (p = row) by congruence. subst p. auto.
Qed.
End EnvironmentProps.

(** ** 2. Value iteration *)

Module ValueIterationProps.
Import ExampleEnvironment ValueIteration ValueIterationSpec.

Lemma backup_mono (r gamma : Q) (row sv sv' : list Q) :
  0 <= gamma -> Forall (Qle 0) row -> Forall2 Qle sv sv' ->
  backup r gamma row sv <= backup r gamma row sv'.
Proof.
  intros Hg Hrow Hsv. unfold backup. revert row Hrow.
  induction Hsv as [|x x' sv sv' Hx _ IH]; intros row Hrow.
  - destruct row; simpl; lra.
  - destruct row as [|a row]; [simpl; lra|].
    inversion Hrow as [|? ? Ha Hrow']; subst.
    specialize (IH row Hrow').
    change (a * (r + gamma * x)
              + np_sum (zip_mul row (scalar_add r (scalar_mul gamma sv)))
            <= a * (r + gamma * x')
              + np_sum (zip_mul row (scalar_add r (scalar_mul gamma sv')))).
    assert (gamma * x <= gamma * x') by nra.
    assert (a * (r + gamma * x) <= a * (r + gamma * x')) by nra.
    lra.
Qed.

Lemma backup_zero_nonneg (r gamma : Q) (row : list Q) (n : nat) :
  0 <= r -> Forall (Qle 0) row -> 0 <= backup r gamma row (replicate n 0).
Proof.
  intros Hr Hrow. unfold backup. revert n.
  induction Hrow as [|a row Ha _ IH]; intros n; [simpl; lra|].
  destruct n as [|n]; [simpl; lra|].
  specialize (IH n).
  change (0 <= a * (r + gamma * 0)
               + np_sum (zip_mul row
                           (scalar_add r (scalar_mul gamma (replicate n 0))))).
  assert (0 <= a * (r + gamma * 0)) by nra.
  lra.
Qed.

Lemma fold_pymax_mono (l l' : list Q) (x x' : Q) :
  Forall2 Qle l l' -> x <= x' ->
  fold_left pymax l x <= fold_left pymax l' x'.
Proof.
  intros Hl. revert x x'.
  induction Hl as [|a a' l l' Ha _ IH]; intros x x' Hx; [exact Hx|].
  simpl. apply IH, pymax_mono; assumption.
Qed.

Lemma fold_pymax_ge (l : list Q) (x : Q) : x <= fold_left pymax l x.
Proof.
  revert x. induction l as [|a l IH]; intros x; simpl; [lra|].
  pose proof (pymax_ge_l x a). pose proof (IH (pymax x a)). lra.
Qed.

Lemma best_backup_mono (gamma : Q) (row rs sv sv' : list Q) :
  0 <= gamma -> Forall (Qle 0) row -> Forall2 Qle sv sv' ->
  best_backup gamma row rs sv <= best_backup gamma row rs sv'.
Proof.
  intros Hg Hrow Hsv. unfold best_backup.
  destruct rs as [|r rs]; simpl; [lra|].
  apply fold_pymax_mono; [|now apply backup_mono].
  induction rs as [|r' rs IH]; simpl; constructor; trivial.
  now apply backup_mono.
Qed.

Lemma best_backup_zero_nonneg (gamma : Q) (row rs : list Q) (n : nat) :
  Forall (Qle 0) row -> Forall (Qle 0) rs ->
  0 <= best_backup gamma row rs (replicate n 0).
Proof.
  intros Hrow Hrs. unfold best_backup.
  destruct Hrs as [|r rs Hr _]; simpl; [lra|].
  pose proof (backup_zero_nonneg r gamma row n Hr Hrow).
  pose proof (fold_pymax_ge
                (map (fun r => backup r gamma row (replicate n 0)) rs)
                (backup r gamma row (replicate n 0))).
  lra.
Qed.

Lemma Forall2_Qle_refl (l : list Q) : Forall2 Qle l l.
Proof. induction l; constructor; [lra|assumption]. Qed.

Lemma Forall2_Qle_trans (l1 l2 l3 : list Q) :
  Forall2 Qle l1 l2 -> Forall2 Qle l2 l3 -> Forall2 Qle l1 l3.
Proof.
  intros H12. revert l3.
  induction H12 as [|a b l1 l2 Hab _ IH]; intros l3 H23;
    inversion H23; subst; constructor; [lra|auto].
Qed.

Lemma Forall2_Qle_insert (l : list Q) (k : nat) (old new : Q) :
  l !! k = Some old -> old <= new -> Forall2 Qle l (<[k := new]> l).
Proof.
  revert k. induction l as [|a l IH]; intros k Ek Hle; [constructor|].
  destruct k as [|k]; simpl in *.
  - injection Ek as ->. constructor; [exact Hle|apply Forall2_Qle_refl].
  - constructor; [lra|now apply IH].
Qed.

Section Model.
Context {G : Type} `{RandomState G}.
Variable env : self G.
Variable gamma : Q.

Hypothesis Hgamma : 0 <= gamma.
Hypothesis Hmodel : model_ok env.

Lemma action_values_eq (s : Z) (row rs sv : list Q) :
  (0 <= s < 4)%Z ->
  tran_matrix env !! Z.to_nat s = Some row -> length row = 4%nat ->
  rewards env !! Z.to_nat s = Some rs -> length rs = 3%nat ->
  length sv = 4%nat ->
  action_values env gamma sv s (range 3)
  = Return (map (fun r => backup r gamma row sv) rs).
Proof.
  intros Hs Erow Lrow Ers Lrs Lsv.
  destruct rs as [|r0 [|r1 [|r2 [|]]]]; try discriminate.
  change (range 3) with [0; 1; 2]%Z.
  assert (Ea : forall a r, getitem [r0; r1; r2] a = Return r ->
             action_value env gamma sv s a
             = Return (backup r gamma row sv)).
  { intros a r Er. unfold action_value.
    rewrite (getitem_lookup _ _ row) by (lia || exact Erow).
    rewrite (getitem_lookup _ _ [r0; r1; r2]) by (lia || exact Ers).
    simpl obind. rewrite Er. simpl obind. unfold array_mul.
    unfold scalar_add, scalar_mul. rewrite !length_map, Lrow, Lsv.
    reflexivity. }
  simpl action_values.
  rewrite (Ea 0%Z r0), (Ea 1%Z r1), (Ea 2%Z r2) by reflexivity.
  reflexivity.
Qed.

Lemma visit_eq (l : locals) (s : Z) (row rs : list Q) (cur : Q) :
  (0 <= s < 4)%Z ->
  tran_matrix env !! Z.to_nat s = Some row -> length row = 4%nat ->
  rewards env !! Z.to_nat s = Some rs -> length rs = 3%nat ->
  length (s_vals l) = 4%nat ->
  s_vals l !! Z.to_nat s = Some cur ->
  visit env gamma (range 3) s l
  = (Return tt,
     {| s_vals :=
          <[Z.to_nat s := best_backup gamma row rs (s_vals l)]> (s_vals l);
        delta :=
          pymax (delta l)
            (Qabs (cur - best_backup gamma row rs (s_vals l))) |}).
Proof.
  intros Hs Erow Lrow Ers Lrs Lsv Ecur.
  unfold visit, bind, gets, lift_outcome, modify.
  rewrite (getitem_lookup _ _ cur) by (lia || exact Ecur).
  rewrite (action_values_eq s row rs) by assumption.
  assert (Ebest : np_max (map (fun r => backup r gamma row (s_vals l)) rs)
                  = Return (best_backup gamma row rs (s_vals l))).
  { unfold best_backup, np_max.
    destruct rs as [|r rs]; [discriminate|reflexivity]. }
  rewrite Ebest. unfold setitem.
  rewrite py_index_nonneg by lia.
  rewrite (getitem_lookup _ _ (best_backup gamma row rs (s_vals l)));
    [reflexivity|lia|].
  apply list_lookup_insert_eq. lia.
Qed.

Lemma improving_zero : improving env gamma (replicate 4 0).
Proof.
  split; [reflexivity|]. intros s row rs cur Hs Erow Ers Ecur.
  destruct Hmodel as [_ Hm].
  destruct (Hm s Hs) as (row' & rs' & Erow' & _ & Hrow & Ers' & _ & Hrs).
  assert (row' = row) by congruence. assert (rs' = rs) by congruence.
  subst. apply lookup_replicate in Ecur as [-> _].
  now apply best_backup_zero_nonneg.
Qed.

(** One assignment [s_vals[s] = np.max(vals)]: it returns, lowers no
    entry, and keeps the invariant. *)
Lemma visit_improves (l : locals) (s : Z) :
  (0 <= s < 4)%Z -> improving env gamma (s_vals l) ->
  exists l' old new,
    visit env gamma (range 3) s l = (Return tt, l') /\
    s_vals l !! Z.to_nat s = Some old /\
    s_vals l' = <[Z.to_nat s := new]> (s_vals l) /\
    old <= new /\
    Forall2 Qle (s_vals l) (s_vals l') /\
    improving env gamma (s_vals l').
Proof.
  intros Hs [Lsv Himp].
  destruct Hmodel as [_ Hm].
  destruct (Hm s Hs) as (row & rs & Erow & Lrow & Hrow & Ers & Lrs & Hrs).
  destruct (lookup_lt_is_Some_2 (s_vals l) (Z.to_nat s)) as [cur Ecur];
    [lia|].
  pose proof (Himp s row rs cur Hs Erow Ers Ecur) as Hle.
  eexists. exists cur, (best_backup gamma row rs (s_vals l)).
  split; [apply (visit_eq l s row rs cur); assumption|].
  cbn [s_vals].
  assert (Hmono : Forall2 Qle (s_vals l)
            (<[Z.to_nat s := best_backup gamma row rs (s_vals l)]>
               (s_vals l)))
    by (eapply Forall2_Qle_insert; eassumption).
  repeat split; trivial.
  - now rewrite length_insert.
  - intros t row_t rs_t cur_t Ht Erow_t Ers_t Ecur_t.
    destruct (Hm t Ht) as (row' & _ & Erow' & _ & Hrow_t & _).
    assert (row' = row_t) by congruence. subst row'.
    apply Qle_trans
      with (y := best_backup gamma row_t rs_t (s_vals l));
      [|now apply best_backup_mono].
    destruct (decide (Z.to_nat t = Z.to_nat s)) as [E|N].
    + rewrite E in *.
      rewrite list_lookup_insert_eq in Ecur_t by lia.
      injection Ecur_t as <-.
      assert (row_t = row) by congruence.
      assert (rs_t = rs) by congruence. subst. lra.
    + rewrite list_lookup_insert_ne in Ecur_t by congruence.
      now apply (Himp t row_t rs_t cur_t).
Qed.

(** The loop [for s in env.grid], from any point of its list. *)
Lemma for_each_visit_improves (states : list Z) (l : locals) :
  Forall (fun s => (0 <= s < 4)%Z) states -> improving env gamma (s_vals l) ->
  exists l',
    for_each states (visit env gamma (range 3)) l = (Return tt, l') /\
    Forall2 Qle (s_vals l) (s_vals l') /\
    improving env gamma (s_vals l').
Proof.
  intros Hst. revert l.
  induction Hst as [|s states Hs _ IH]; intros l Himp.
  - exists l. repeat split; [apply Forall2_Qle_refl|apply Himp..].
  - destruct (visit_improves l s Hs Himp)
      as (l1 & old & new & E1 & _ & _ & _ & Hle1 & Himp1).
    destruct (IH l1 Himp1) as (l2 & E2 & Hle2 & Himp2).
    exists l2. split; [|split; [|exact Himp2]].
    + simpl. unfold bind. now rewrite E1.
    + eapply Forall2_Qle_trans; eassumption.
Qed.

Lemma sweep_improves (l : locals) :
  improving env gamma (s_vals l) ->
  exists l',
    sweep env gamma (range 3) l = (Return tt, l') /\
    Forall2 Qle (s_vals l) (s_vals l') /\
    improving env gamma (s_vals l').
Proof.
  intros Himp. destruct Hmodel as [Hgrid _].
  destruct (for_each_visit_improves (grid env) (set_delta 0 l) Hgrid Himp)
    as (l' & E & Hle & Himp').
  exists l'. split; [|split; assumption].
  unfold sweep, bind, modify. exact E.
Qed.
End Model.

Section Run.
Context {G : Type} `{RandomState G}.

Lemma after_sweeps_S (env : self G) (gamma : Q) (n : nat) (l : locals) :
  after_sweeps env gamma (S n) l
  = snd (sweep env gamma (range 3) (after_sweeps env gamma n l)).
Proof. reflexivity. Qed.

Lemma init_model_ok (info : env_info) : model_ok (__init__ info).
Proof.
  split.
  - repeat constructor; lia.
  - intros s Hs.
    destruct (EnvironmentProps.rows_accepted s Hs)
      as (row & Erow & (Lrow & Hrow & _) & _).
    destruct (EnvironmentProps.rewards_rows s Hs) as (rs & Ers & Lrs).
    exists row, rs. repeat split; trivial.
    assert (C : s = 0%Z \/ s = 1%Z \/ s = 2%Z \/ s = 3%Z) by lia.
    destruct C as [-> | [-> | [-> | ->]]]; injection Ers as <-;
      repeat constructor;
      apply EnvironmentProps.Qle_by_computation; reflexivity.
Qed.

Lemma after_sweeps_improving
    (env : self G) (gamma theta : Q) (n : nat) :
  0 <= gamma -> model_ok env ->
  improving env gamma (s_vals (after_sweeps env gamma n (initial theta))).
Proof.
  intros Hg Hm. induction n as [|n IH].
  - now apply improving_zero.
  - destruct (sweep_improves env gamma Hg Hm _ IH) as (l' & E & _ & Hi).
    rewrite after_sweeps_S. now rewrite E.
Qed.

Lemma within_sweep_improving
    (env : self G) (gamma : Q) (k : nat) (l : locals) :
  0 <= gamma -> model_ok env -> improving env gamma (s_vals l) ->
  improving env gamma (s_vals (within_sweep env gamma k l)).
Proof.
  intros Hg Hm Hi. unfold within_sweep.
  destruct (for_each_visit_improves env gamma Hg Hm
              (take k (grid env)) (set_delta 0 l))
    as (l' & E & _ & Hi'); [apply Forall_take, Hm|exact Hi|].
  now rewrite E.
Qed.

(** What the [while] loop leaves is the table after some number of
    passes, and no pass raises. *)
Lemma while_loop_sweeps
    (env : self G) (theta gamma : Q) (fuel n : nat) (r : outcome unit)
    (l' : locals) :
  0 <= gamma -> model_ok env ->
  while_loop fuel env theta gamma (range 3)
    (after_sweeps env gamma n (initial theta)) = Some (r, l') ->
  r = Return tt /\
  exists m, l' = after_sweeps env gamma m (initial theta).
Proof.
  intros Hg Hm. revert n.
  induction fuel as [|fuel IH]; intros n; simpl;
    destruct (Qltb theta _); try discriminate;
    try (intros [= <- <-]; eauto).
  destruct (sweep_improves env gamma Hg Hm _
              (after_sweeps_improving env gamma theta n Hg Hm))
    as (l1 & E & _ & _).
  rewrite E. intros W. apply (IH (S n)).
  rewrite after_sweeps_S. now rewrite E.
Qed.

(** C5. In [value_iteration] with a discount that is not negative (the
    rewards of the environment are non-negative and the table starts at
    zero), take the table after any number [n] of passes and then any
    number [k] of assignments of the next pass; none of these raises.  The
    next assignment, to state [s], returns and leaves [s_vals[s]] at least
    as large as it was, and the table after pass [n + 1] is entrywise at
    least the table after pass [n]. *)
Theorem value_iteration_never_decreases
    (theta discount : Q) (n k : nat) (s : Z) :
  0 <= discount ->
  the_grid !! k = Some s ->
  let env := __init__ {| info_seed := None |} in
  let start_of_pass := after_sweeps env discount n (initial theta) in
  let before := within_sweep env discount k start_of_pass in
  exists after old new,
    for_each (take k (grid env)) (visit env discount (range 3))
      (set_delta 0 start_of_pass) = (Return tt, before) /\
    visit env discount (range 3) s before = (Return tt, after) /\
    s_vals before !! Z.to_nat s = Some old /\
    s_vals after = <[Z.to_nat s := new]> (s_vals before) /\
    old <= new /\
    sweep env discount (range 3) start_of_pass
      = (Return tt, after_sweeps env discount (S n) (initial theta)) /\
    Forall2 Qle (s_vals start_of_pass)
      (s_vals (after_sweeps env discount (S n) (initial theta))).
Proof.
  intros Hg Es env start_of_pass before.
  pose proof (init_model_ok {| info_seed := None |}) as Hm.
  pose proof (after_sweeps_improving env discount theta n Hg Hm) as Hi.
  pose proof (within_sweep_improving env discount k _ Hg Hm Hi) as Hb.
  destruct (visit_improves env discount Hg Hm before s)
    as (after & old & new & E & Eold & Enew & Hle & _ & _);
    [eapply EnvironmentProps.grid_members, Es|exact Hb|].
  exists after, old, new.
  destruct (for_each_visit_improves env discount Hg Hm
              (take k (grid env)) (set_delta 0 start_of_pass))
    as (mid & Emid & _ & _); [apply Forall_take, Hm|exact Hi|].
  split.
  { unfold before, within_sweep. now rewrite Emid. }
  repeat (split; [assumption|]).
  destruct (sweep_improves env discount Hg Hm _ Hi) as (l' & E' & Hle' & _).
  rewrite after_sweeps_S. unfold start_of_pass in *. rewrite E'.
  split; [reflexivity|exact Hle'].
Qed.

(** Every table [value_iteration] returns is the table after some number
    of passes; it never raises. *)
Lemma value_iteration_result
    (fuel : nat) (theta discount : Q) (r : outcome (list Q)) :
  0 <= discount ->
  value_iteration fuel theta discount = Some r ->
  exists m,
    r = Return (s_vals (after_sweeps (__init__ {| info_seed := None |})
                          discount m (initial theta))).
Proof.
  intros Hg. unfold value_iteration.
  destruct (while_loop _ _ _ _ _ _) as [[o l']|] eqn:W; [|discriminate].
  apply (while_loop_sweeps _ theta discount fuel 0%nat o l' Hg
           (init_model_ok _)) in W as [-> [m ->]].
  intros [= <-]. eauto.
Qed.
End Run.

(** *** Concrete runs *)

#[local] Existing Instance Lcg.generator.

Lemma value_iteration_never_decreases_witness :
  0 <= 9 # 10 /\ the_grid !! 2%nat = Some 2%Z /\
  let env : self Z := __init__ {| info_seed := None |} in
  let before :=
    within_sweep env (9 # 10) 2
      (after_sweeps env (9 # 10) 1 (initial (1 # 100))) in
  exists after old new,
    visit env (9 # 10) (range 3) 2 before = (Return tt, after) /\
    s_vals before !! 2%nat = Some old /\
    s_vals after = <[2%nat := new]> (s_vals before) /\
    old <= new.
Proof.
  assert (Hg : 0 <= 9 # 10) by (unfold Qle; simpl; lia).
  split; [exact Hg|]. split; [reflexivity|].
  destruct (value_iteration_never_decreases (G := Z) (1 # 100) (9 # 10)
              1 2 2 Hg eq_refl)
    as (after & old & new & _ & E & Eold & Enew & Hle & _).
  exists after, old, new. repeat split; assumption.
Defined.

(** With a threshold of 100 the loop stops after its first pass. *)
Example value_iteration_returns :
  exists v, value_iteration (G := Z) 1 100 (9 # 10) = Some (Return v) /\
            Forall2 Qeq v [2; 29 # 20; 1061 # 800; 105549 # 32000].
Proof.
  eexists. split; [vm_compute; reflexivity|].
  repeat constructor; reflexivity.
Qed.

(** The bound on the discount is needed: with discount [-1] the second pass
    lowers the value of state 0 from 2 to 3/4. *)
Remark negative_discount_can_decrease :
  let env : self Z := __init__ {| info_seed := None |} in
  let before := after_sweeps env (-1) 1 (initial (1 # 100)) in
  let after := snd (visit env (-1) (range 3) 0 (set_delta 0 before)) in
  exists old new,
    s_vals before !! 0%nat = Some old /\
    s_vals after !! 0%nat = Some new /\
    old == 2 /\ new == 3 # 4.
Proof.
  do 2 eexists. split; [vm_compute; reflexivity|].
  split; [vm_compute; reflexivity|]. split; reflexivity.
Qed.
End ValueIterationProps.

(** ** 3. Q-learning agent *)

Module AgentProps.
Import QLearningAgent AgentSpec.

(** *** The scan of [argmax] *)

Lemma fold_pymax_In (l : list Q) (x : Q) :
  fold_left pymax l x = x \/ In (fold_left pymax l x) l.
Proof.
  revert x. induction l as [|a l IH]; intros x; simpl; [now left|].
  destruct (IH (pymax x a)) as [E|I]; [|now right; right].
  rewrite E. unfold pymax. destruct (Qltb x a); [right|]; now left.
Qed.

Lemma fold_pymax_upper (l : list Q) (x : Q) :
  Forall (fun v => v <= fold_left pymax l x) l.
Proof.
  revert x. induction l as [|a l IH]; intros x; simpl; constructor.
  - pose proof (ValueIterationProps.fold_pymax_ge l (pymax x a)).
    pose proof (pymax_ge_r x a). lra.
  - apply IH.
Qed.

Lemma fold_pymax_is_max (v : Q) (rest : list Q) :
  is_max (fold_left pymax rest v) (v :: rest).
Proof.
  split.
  - destruct (fold_pymax_In rest v) as [-> | I]; [now left|now right].
  - constructor; [apply ValueIterationProps.fold_pymax_ge|].
    apply fold_pymax_upper.
Qed.

Lemma Qeq_bool_false (a b : Q) : ~ a == b -> Qeq_bool a b = false.
Proof.
  intros N. destruct (Qeq_bool a b) eqn:E; [|reflexivity].
  apply Qeq_bool_iff in E. contradiction.
Qed.

(** The scan from a finite [top]: the new [top] is the running maximum, and
    the tie list is restarted exactly when that maximum exceeds the old
    [top]. *)
Lemma argmax_scan_from (vs : list Q) (i : Z) (t : Q) (ties : list Z) :
  argmax_scan i vs (Some t) ties
  = (Some (fold_left pymax vs t),
     (if Qltb t (fold_left pymax vs t) then [] else ties)
       ++ tied_from i vs (fold_left pymax vs t)).
Proof.
  revert i t ties. induction vs as [|v vs IH]; intros i t ties.
  - simpl. assert (E : Qltb t t = false) by (apply Qltb_ge; lra).
    now rewrite E, app_nil_r.
  - pose proof (ValueIterationProps.fold_pymax_ge vs (pymax t v)) as Hge.
    simpl argmax_scan. simpl fold_left. simpl tied_from.
    unfold above, equals.
    destruct (Qltb t v) eqn:Etv.
    + assert (Ep : pymax t v = v) by (unfold pymax; now rewrite Etv).
      rewrite Ep in *. set (m := fold_left pymax vs v) in *.
      apply Qltb_lt in Etv. rewrite Qeq_bool_refl, IH. fold m.
      assert (Etm : Qltb t m = true) by (apply Qltb_lt; lra).
      rewrite Etm. f_equal.
      destruct (Qltb v m) eqn:Evm.
      * apply Qltb_lt in Evm.
        rewrite Qeq_bool_false by lra. reflexivity.
      * apply Qltb_ge in Evm.
        rewrite Qeq_eq_bool by lra. reflexivity.
    + assert (Ep : pymax t v = t) by (unfold pymax; now rewrite Etv).
      rewrite Ep in *. set (m := fold_left pymax vs t) in *.
      apply Qltb_ge in Etv. destruct (Qeq_bool v t) eqn:Evt.
      * apply Qeq_bool_iff in Evt. rewrite IH. fold m. f_equal.
        destruct (Qltb t m) eqn:Etm.
        -- apply Qltb_lt in Etm. rewrite Qeq_bool_false by lra.
           reflexivity.
        -- apply Qltb_ge in Etm. rewrite Qeq_eq_bool by lra.
           now rewrite <- app_assoc.
      * apply Qeq_bool_neq in Evt. rewrite IH. fold m. f_equal.
        rewrite Qeq_bool_false by lra. reflexivity.
Qed.

(** The whole scan, from [float("-inf")] and an empty list. *)
Lemma argmax_scan_eq (v : Q) (rest : list Q) :
  argmax_scan 0 (v :: rest) None []
  = (Some (fold_left pymax rest v),
     tied_from 0 (v :: rest) (fold_left pymax rest v)).
Proof.
  pose proof (ValueIterationProps.fold_pymax_ge rest v) as Hge.
  simpl argmax_scan. rewrite Qeq_bool_refl, argmax_scan_from.
  f_equal. simpl tied_from.
  destruct (Qltb v (fold_left pymax rest v)) eqn:E.
  - apply Qltb_lt in E. rewrite Qeq_bool_false by lra. reflexivity.
  - apply Qltb_ge in E. rewrite Qeq_eq_bool by lra. reflexivity.
Qed.

Lemma tied_from_filter (pre vs : list Q) (m : Q) :
  tied_from (Z.of_nat (length pre)) vs m
  = List.filter
      (fun i => match (pre ++ vs) !! Z.to_nat i with
                | Some v => Qeq_bool v m
                | None => false
                end)
      (map Z.of_nat (seq (length pre) (length vs))).
Proof.
  revert pre. induction vs as [|v vs IH]; intros pre; [reflexivity|].
  simpl tied_from. simpl length. simpl seq. simpl map. simpl List.filter.
  rewrite Nat2Z.id, list_lookup_middle by reflexivity.
  specialize (IH (pre ++ [v])).
  rewrite length_app, <- app_assoc in IH. simpl in IH.
  rewrite Nat.add_1_r in IH.
  replace (Z.of_nat (length pre) + 1)%Z with (Z.of_nat (S (length pre)))
    by lia.
  now rewrite IH.
Qed.

Lemma tied_from_indices (vs : list Q) (m : Q) :
  tied_from 0 vs m = indices_equal_to m vs.
Proof. exact (tied_from_filter [] vs m). Qed.

Lemma tied_from_bounds (vs : list Q) (m : Q) (i0 i : Z) :
  In i (tied_from i0 vs m) -> (i0 <= i < i0 + Z.of_nat (length vs))%Z.
Proof.
  revert i0. induction vs as [|v vs IH]; intros i0; simpl; [easy|].
  destruct (Qeq_bool v m); simpl; intros I.
  - destruct I as [<- | I]; [lia|]. apply IH in I. lia.
  - apply IH in I. lia.
Qed.

Lemma tied_from_nonempty (vs : list Q) (m : Q) (i0 : Z) :
  In m vs -> tied_from i0 vs m <> [].
Proof.
  revert i0. induction vs as [|v vs IH]; intros i0; simpl; [easy|].
  intros [-> | I].
  - now rewrite Qeq_bool_refl.
  - destruct (Qeq_bool v m); [discriminate|now apply IH].
Qed.

Section WithGenerator.
Context {G : Type} `{RandomState G}.

Lemma argmax_eq (q_values : list Q) (a : self G) :
  q_values <> [] ->
  exists m action,
    let ties := indices_equal_to m q_values in
    let draw := random_below (Z.of_nat (length ties)) (rand_generator a) in
    is_max m q_values /\
    argmax_scan 0 q_values None [] = (Some m, ties) /\
    ties !! Z.to_nat (fst draw) = Some action /\
    argmax q_values a = (Return action, set_rand_generator (snd draw) a).
Proof.
  intros Hne. destruct q_values as [|v rest]; [congruence|].
  pose proof (fold_pymax_is_max v rest) as Hmax.
  set (m := fold_left pymax rest v) in *.
  assert (Hties : indices_equal_to m (v :: rest) <> []).
  { rewrite <- tied_from_indices. apply tied_from_nonempty, Hmax. }
  destruct (choice_eq (indices_equal_to m (v :: rest)) (rand_generator a)
              Hties) as (action & Ea & Ec).
  exists m, action. cbv zeta. split; [exact Hmax|].
  assert (Escan : argmax_scan 0 (v :: rest) None []
                  = (Some m, indices_equal_to m (v :: rest))).
  { rewrite argmax_scan_eq. fold m. now rewrite tied_from_indices. }
  split; [exact Escan|]. split; [exact Ea|].
  unfold argmax. rewrite Escan. unfold zoom. now rewrite Ec.
Qed.

Lemma getitem_valid {A} (l : list A) (len : nat) (i : Z) :
  length l = len -> valid_index len i ->
  exists k x, py_index len i = Some k /\ l !! k = Some x /\
              getitem l i = Return x.
Proof.
  intros <- Hi. destruct (getitem_total l i Hi) as [x Ex].
  destruct (getitem_Return l i x Ex) as (k & Ek & El). eauto.
Qed.

Lemma epsilon_greedy_eq (current_q : list Q) (a : self G) :
  num_actions a = 3%Z -> length current_q = 3%nat ->
  exists action g',
    (0 <= action < 3)%Z /\
    epsilon_greedy current_q a = (Return action, set_rand_generator g' a).
Proof.
  intros Hn Hlen.
  unfold epsilon_greedy, bind, zoom, gets. rewrite rand_eq.
  cbn [fst snd rand_generator set_rand_generator epsilon].
  destruct (Qltb _ (epsilon a)).
  - cbn [num_actions rand_generator set_rand_generator]. rewrite Hn.
    rewrite randint_eq by lia.
    do 2 eexists. split; [|reflexivity].
    apply random_below_range. lia.
  - destruct (argmax_eq current_q
                (set_rand_generator (snd (random_sample (rand_generator a)))
                   a))
      as (m & action & _ & _ & Ea & ->);
      [destruct current_q; [discriminate|congruence]|].
    exists action. eexists. split; [|reflexivity].
    apply list_elem_of_lookup_2, list_elem_of_In in Ea.
    rewrite <- tied_from_indices in Ea.
    apply tied_from_bounds in Ea. rewrite Hlen in Ea. lia.
Qed.

(** What [start] does: one epsilon-greedy choice on row [state], recorded
    with the state; the table is not assigned. *)
Lemma agent_start_eq (a : self G) (state : Z) :
  agent_ok a -> valid_index 4 state ->
  exists action g',
    (0 <= action < 3)%Z /\
    start state a
    = (Return action,
       set_prev (Some state) (Some action) (set_rand_generator g' a)).
Proof.
  intros (Hn & _ & Hlen & Hrows) Hs.
  destruct (getitem_valid (q a) 4 state Hlen Hs) as (k & row & _ & Ek & Eg).
  assert (Lrow : length row = 3%nat)
    by (rewrite Forall_lookup in Hrows; exact (Hrows k row Ek)).
  destruct (epsilon_greedy_eq row a Hn Lrow) as (action & g' & Ha & Ee).
  exists action, g'. split; [exact Ha|].
  unfold start, bind, gets, lift_outcome, modify, ret.
  now rewrite Eg, Ee.
Qed.

Lemma step_loop_eq (a : self G) (state : Z) (reward cur_val : Q)
    (acts : list Z) (nexts : list Q) (new_val : Q) :
  Forall2 (fun act next => getitem2 (q a) state act = Return next)
    acts nexts ->
  step_loop acts state reward cur_val new_val a
  = (Return (fold_left pymax (map (candidate a reward cur_val) nexts)
               new_val), a).
Proof.
  intros Hall. revert new_val.
  induction Hall as [|act next acts nexts E _ IH]; intros new_val;
    [reflexivity|].
  simpl step_loop. unfold bind, gets, lift_outcome. rewrite E.
  rewrite IH. reflexivity.
Qed.

Lemma row_reads (t : list (list Q)) (state : Z) (k : nat) (row : list Q) :
  py_index (length t) state = Some k -> t !! k = Some row ->
  length row = 3%nat ->
  Forall2 (fun act next => getitem2 t state act = Return next)
    (range 3) row.
Proof.
  intros Ek Erow Lrow.
  assert (Eg : getitem t state = Return row)
    by (unfold getitem; now rewrite Ek, Erow).
  destruct row as [|x0 [|x1 [|x2 [|]]]]; try discriminate.
  change (range 3) with [0; 1; 2]%Z.
  repeat constructor; unfold getitem2; rewrite Eg; reflexivity.
Qed.

(** What [step] does on a call that numpy accepts: one epsilon-greedy
    choice on row [state], then one assignment, to the remembered entry,
    of the largest candidate (or of [-1e8] when every candidate is
    smaller). *)
Lemma agent_step_eq (a : self G) (state : Z) (reward : Q) (ps pa : Z) :
  agent_ok a -> valid_index 4 state ->
  prev_state a = Some ps -> prev_action a = Some pa ->
  valid_index 4 ps -> valid_index 3 pa ->
  exists action g' k row i prow j cur_val,
    (0 <= action < 3)%Z /\
    py_index 4 state = Some k /\ q a !! k = Some row /\
    length row = 3%nat /\
    py_index 4 ps = Some i /\ q a !! i = Some prow /\
    py_index 3 pa = Some j /\ prow !! j = Some cur_val /\
    let new_val :=
      fold_left pymax (map (candidate a reward cur_val) row) neg_1e8 in
    step state reward a
    = (Return (action, Qltb (Qabs (new_val - cur_val)) (delta a)),
       set_q (<[i := <[j := new_val]> prow]> (q a))
         (set_rand_generator g' a)).
Proof.
  intros (Hn & Hns & Hlen & Hrows) Hs Hps Hpa Vps Vpa.
  destruct (getitem_valid (q a) 4 state Hlen Hs) as (k & row & Ek & Erow & Eg).
  assert (Lrow : length row = 3%nat)
    by (rewrite Forall_lookup in Hrows; exact (Hrows k row Erow)).
  destruct (getitem_valid (q a) 4 ps Hlen Vps) as (i & prow & Ei & Eprow & Egp).
  assert (Lprow : length prow = 3%nat)
    by (rewrite Forall_lookup in Hrows; exact (Hrows i prow Eprow)).
  destruct (getitem_valid prow 3 pa Lprow Vpa) as (j & cur & Ej & Ecur & Egc).
  destruct (epsilon_greedy_eq row a Hn Lrow) as (action & g' & Ha & Ee).
  exists action, g', k, row, i, prow, j, cur.
  repeat (split; [assumption|]). cbv zeta.
  set (new_val := fold_left pymax (map (candidate a reward cur) row)
                    neg_1e8).
  unfold step, bind, gets, lift_outcome, modify, ret.
  rewrite Eg, Ee.
  cbn [prev_state prev_action set_rand_generator num_actions delta].
  rewrite Hps, Hpa.
  assert (E2 : getitem2 (q a) ps pa = Return cur)
    by (unfold getitem2; rewrite Egp; exact Egc).
  rewrite E2.
  change (num_actions (set_rand_generator g' a)) with (num_actions a).
  rewrite Hn. change (Z.to_nat 3) with 3%nat.
  rewrite (step_loop_eq (set_rand_generator g' a) state reward cur
             (range 3) row neg_1e8).
  2:{ cbn [q set_rand_generator]. apply (row_reads _ _ k); trivial.
      now rewrite Hlen. }
  change (fold_left pymax
            (map (candidate (set_rand_generator g' a) reward cur) row)
            neg_1e8) with new_val.
  assert (E3 : setitem2 (q a) ps pa new_val
               = Return (<[i := <[j := new_val]> prow]> (q a))).
  { unfold setitem2. rewrite Egp. simpl obind. unfold setitem.
    rewrite Lprow, Ej. simpl obind. now rewrite Hlen, Ei. }
  rewrite E3.
  change (delta (set_q _ (set_rand_generator g' a))) with (delta a).
  now destruct (Qltb (Qabs (new_val - cur)) (delta a)).
Qed.

Lemma entry_insert (t : list (list Q)) (i j : nat) (row : list Q) (x : Q) :
  t !! i = Some row -> (j < length row)%nat ->
  entry (<[i := <[j := x]> row]> t) i j = Some x.
Proof.
  intros Ei Hj. unfold entry.
  rewrite list_lookup_insert_eq by (eapply lookup_lt_Some, Ei).
  now apply list_lookup_insert_eq.
Qed.

Lemma entry_insert_other
    (t : list (list Q)) (i j i' j' : nat) (row : list Q) (x : Q) :
  t !! i = Some row -> (i', j') <> (i, j) ->
  entry (<[i := <[j := x]> row]> t) i' j' = entry t i' j'.
Proof.
  intros Ei Hne. unfold entry.
  destruct (decide (i' = i)) as [->|Ni].
  - rewrite list_lookup_insert_eq by (eapply lookup_lt_Some, Ei).
    rewrite Ei. apply list_lookup_insert_ne. congruence.
  - now rewrite list_lookup_insert_ne by congruence.
Qed.

(** C2. On a non-empty list the scan of [argmax] ends with [top] at the
    maximum [m] of the list and with [ties] the list, in increasing
    order, of exactly the indices whose value equals [m]; the action
    returned is [ties[d]] for the generator's integer draw [d] below
    [len(ties)], which is how [choice] picks uniformly.  A value strictly
    above [top] restarts the tie list at its own index. *)
Theorem argmax_ties_at_maximum (q_values : list Q) (a : self G) :
  q_values <> [] ->
  exists m action,
    let ties := indices_equal_to m q_values in
    let draw := random_below (Z.of_nat (length ties)) (rand_generator a) in
    is_max m q_values /\
    argmax_scan 0 q_values None [] = (Some m, ties) /\
    ties !! Z.to_nat (fst draw) = Some action /\
    argmax q_values a = (Return action, set_rand_generator (snd draw) a) /\
    (forall i v rest top old, above v top = true ->
       argmax_scan i (v :: rest) top old
       = argmax_scan (i + 1) rest (Some v) [i]).
Proof.
  intros Hne.
  destruct (argmax_eq q_values a Hne) as (m & action & Hm & Es & Ea & Eg).
  exists m, action. cbv zeta. repeat (split; [assumption|]).
  intros i v rest top old Hab. simpl argmax_scan. rewrite Hab.
  unfold equals. now rewrite Qeq_bool_refl.
Qed.

(** The assignment of [step] touches the remembered entry only. *)
Lemma step_writes_one_entry
    (a : self G) (state : Z) (reward : Q) (ps pa : Z) :
  agent_ok a -> valid_index 4 state ->
  prev_state a = Some ps -> prev_action a = Some pa ->
  valid_index 4 ps -> valid_index 3 pa ->
  exists result a' i j,
    step state reward a = (Return result, a') /\
    py_index 4 ps = Some i /\ py_index 3 pa = Some j /\
    forall i' j', (i', j') <> (i, j) ->
      entry (q a') i' j' = entry (q a) i' j'.
Proof.
  intros Hok Hs Hps Hpa Vps Vpa.
  destruct (agent_step_eq a state reward ps pa Hok Hs Hps Hpa Vps Vpa)
    as (action & g' & k & row & i & prow & j & cur & _ & _ & _ & _
        & Ei & Eprow & Ej & Ecur & E).
  cbv zeta in E.
  do 2 eexists. exists i, j. split; [exact E|].
  repeat (split; [assumption|]).
  intros i' j' Hne. cbn [q set_q]. now apply entry_insert_other.
Qed.

(** [start] assigns the memory and advances the generator; the table and
    the parameters stay. *)
Lemma start_keeps_table (a : self G) (state : Z) :
  agent_ok a -> valid_index 4 state ->
  exists action a',
    start state a = (Return action, a') /\
    q a' = q a /\
    prev_state a' = Some state /\ prev_action a' = Some action.
Proof.
  intros Hok Hs.
  destruct (agent_start_eq a state Hok Hs) as (action & g' & _ & E).
  exists action. eexists. split; [exact E|]. repeat split.
Qed.

Lemma epsilon_greedy_frame (current_q : list Q) (a : self G) :
  exists g', snd (epsilon_greedy current_q a) = set_rand_generator g' a.
Proof.
  unfold epsilon_greedy, bind, zoom, gets, argmax. rewrite rand_eq.
  cbn [fst snd].
  destruct (Qltb _ _).
  - match goal with
    | |- context [randint ?n ?g] => destruct (randint n g) as [o g2]
    end.
    now exists g2.
  - destruct (argmax_scan 0 current_q None []) as [top ties].
    unfold zoom.
    match goal with
    | |- context [choice ties ?g] => destruct (choice ties g) as [o g2]
    end.
    now exists g2.
Qed.

Lemma step_loop_frame (acts : list Z) (state : Z)
    (reward cur_val new_val : Q) (a : self G) :
  snd (step_loop acts state reward cur_val new_val a) = a.
Proof.
  revert new_val. induction acts as [|act acts IH]; intros new_val;
    [reflexivity|].
  simpl step_loop. unfold bind, gets, lift_outcome.
  destruct (getitem2 (q a) state act); [apply IH|reflexivity].
Qed.

(** [step] never assigns [prev_state] or [prev_action]: whatever the call
    and however it ends, the memory afterwards is the memory before. *)
Lemma step_keeps_memory (a : self G) (state : Z) (reward : Q) :
  prev_state (snd (step state reward a)) = prev_state a /\
  prev_action (snd (step state reward a)) = prev_action a.
Proof.
  unfold step, bind, gets, lift_outcome, modify, ret, raise.
  destruct (getitem (q a) state) as [row|]; [|now split].
  destruct (epsilon_greedy_frame row a) as [g' Eg].
  destruct (epsilon_greedy row a) as [[action|x] a1]; simpl in Eg;
    subst a1; [|now split].
  change (prev_state (set_rand_generator g' a)) with (prev_state a).
  change (prev_action (set_rand_generator g' a)) with (prev_action a).
  destruct (prev_state a) as [ps|] eqn:Eps,
           (prev_action a) as [pa|] eqn:Epa;
    try (split; assumption);
    try (cbv beta; destruct (getitem (q a) _); split; assumption).
  cbv beta.
  destruct (getitem2 (q a) ps pa) as [cur|]; [|split; assumption].
  pose proof (step_loop_frame
                (range (Z.to_nat (num_actions (set_rand_generator g' a))))
                state reward cur neg_1e8 (set_rand_generator g' a)) as El.
  destruct (step_loop _ state reward cur neg_1e8 _) as [[new|x] a2];
    simpl in El; subst a2; [|split; assumption].
  destruct (setitem2 (q a) ps pa new) as [t'|]; [|split; assumption].
  destruct (Qltb _ _); split; assumption.
Qed.
End WithGenerator.

(** *** The value [step] writes *)

Lemma fold_pymax_below (l : list Q) (base : Q) :
  Forall (fun v => v <= base) l -> fold_left pymax l base = base.
Proof.
  induction 1 as [|v l Hv _ IH]; simpl; [reflexivity|].
  assert (E : pymax base v = base)
    by (unfold pymax; apply Qltb_ge in Hv; now rewrite Hv).
  now rewrite E.
Qed.

Lemma fold_pymax_map_max (f : Q -> Q) (row : list Q) (m base : Q) :
  (forall x y, x <= y -> f x <= f y) ->
  is_max m row -> base <= f m ->
  fold_left pymax (map f row) base == f m.
Proof.
  intros Hf [Hin Hup] Hinit.
  apply Qle_antisym.
  - destruct (fold_pymax_In (map f row) base) as [-> | I]; [exact Hinit|].
    apply in_map_iff in I as (x & <- & Hx).
    rewrite Forall_forall in Hup. apply Hf, Hup. now apply list_elem_of_In.
  - pose proof (fold_pymax_upper (map f row) base) as Hall.
    rewrite Forall_forall in Hall. apply Hall.
    apply list_elem_of_In, in_map, Hin.
Qed.

Section Update.
Context {G : Type} `{RandomState G}.

Lemma candidate_mono (a : self G) (reward cur_val x y : Q) :
  0 <= step_size a -> 0 <= discount a -> x <= y ->
  candidate a reward cur_val x <= candidate a reward cur_val y.
Proof.
  intros Ha Hg Hxy. unfold candidate.
  assert (discount a * x <= discount a * y) by nra.
  nra.
Qed.

(** With a positive step size and a discount that is not negative, the
    value [step] writes is the update rule's as long as that is at least
    [-1e8]; below it, [-1e8] itself is written. *)
Lemma step_written_value
    (a : self G) (state : Z) (reward : Q) (ps pa : Z) :
  agent_ok a -> valid_index 4 state ->
  prev_state a = Some ps -> prev_action a = Some pa ->
  valid_index 4 ps -> valid_index 3 pa ->
  0 < step_size a -> 0 <= discount a ->
  exists result a' k row i j cur_val written,
    step state reward a = (Return result, a') /\
    py_index 4 state = Some k /\ q a !! k = Some row /\
    py_index 4 ps = Some i /\ py_index 3 pa = Some j /\
    entry (q a) i j = Some cur_val /\
    entry (q a') i j = Some written /\
    forall m, is_max m row ->
      (neg_1e8 <= spec_update a reward cur_val m ->
       written == spec_update a reward cur_val m) /\
      (spec_update a reward cur_val m < neg_1e8 -> written = neg_1e8).
Proof.
  intros Hok Hs Hps Hpa Vps Vpa Halpha Hgamma.
  destruct (agent_step_eq a state reward ps pa Hok Hs Hps Hpa Vps Vpa)
    as (action & g' & k & row & i & prow & j & cur & _ & Ek & Erow & _
        & Ei & Eprow & Ej & Ecur & E).
  cbv zeta in E.
  do 2 eexists. exists k, row, i, j, cur. eexists.
  split; [exact E|]. repeat (split; [assumption|]).
  split; [unfold entry; now rewrite Eprow|].
  split.
  { cbn [q set_q]. apply entry_insert; [exact Eprow|].
    eapply lookup_lt_Some, Ecur. }
  intros m Hm. split.
  - intros Hfloor.
    apply (fold_pymax_map_max (candidate a reward cur) row m neg_1e8);
      [|exact Hm|exact Hfloor].
    intros x y Hxy. apply candidate_mono; trivial. lra.
  - intros Hlow. apply fold_pymax_below.
    apply Forall_forall. intros v Hv.
    apply list_elem_of_In, in_map_iff in Hv as (x & <- & Hx).
    destruct Hm as [_ Hup]. rewrite Forall_forall in Hup.
    apply list_elem_of_In in Hx.
    pose proof (candidate_mono a reward cur x m
                  (Qlt_le_weak _ _ Halpha) Hgamma (Hup x Hx)) as Hle.
    unfold spec_update in Hlow. unfold candidate in *. lra.
Qed.

(** *** The shape of the agent is kept *)

Lemma uniform_eq (low high : Q) (n : nat) (g : G) :
  exists l g', uniform low high n g = (Return l, g') /\ length l = n.
Proof.
  revert g. induction n as [|n IH]; intros g; simpl.
  - now exists [], g.
  - unfold bind. rewrite rand_eq.
    destruct (IH (snd (random_sample g))) as (l & g' & -> & Hl).
    do 2 eexists. split; [reflexivity|]. simpl. now rewrite Hl.
Qed.

Lemma uniform2_eq (low high : Q) (rows cols : nat) (g : G) :
  exists t g', uniform2 low high rows cols g = (Return t, g') /\
               length t = rows /\ Forall (fun r => length r = cols) t.
Proof.
  revert g. induction rows as [|rows IH]; intros g; simpl.
  - exists [], g. repeat split. constructor.
  - unfold bind.
    destruct (uniform_eq low high cols g) as (r & g1 & -> & Hr).
    destruct (IH g1) as (t & g' & -> & Ht & Hall).
    do 2 eexists. split; [reflexivity|]. split; [simpl; now rewrite Ht|].
    now constructor.
Qed.

Lemma agent_init_ok (info : agent_info) : agent_ok (__init__ info).
Proof.
  unfold __init__.
  destruct (uniform2_eq 0 (1 # 10) 4 3
              (seed_state (default 0%Z (info_seed info))))
    as (t & g' & -> & Ht & Hall).
  repeat split; assumption.
Qed.

Lemma step_ok (a : self G) (state : Z) (reward : Q) (ps pa : Z) :
  agent_ok a -> valid_index 4 state ->
  prev_state a = Some ps -> prev_action a = Some pa ->
  valid_index 4 ps -> valid_index 3 pa ->
  agent_ok (snd (step state reward a)).
Proof.
  intros Hok Hs Hps Hpa Vps Vpa.
  destruct (agent_step_eq a state reward ps pa Hok Hs Hps Hpa Vps Vpa)
    as (action & g' & k & row & i & prow & j & cur & _ & _ & _ & _
        & Ei & Eprow & Ej & Ecur & E).
  cbv zeta in E. rewrite E.
  destruct Hok as (Hn & Hns & Hlen & Hrows).
  repeat split; trivial; cbn [snd q set_q].
  - now rewrite length_insert.
  - apply Forall_insert; [exact Hrows|].
    rewrite length_insert.
    rewrite Forall_lookup in Hrows. exact (Hrows i prow Eprow).
Qed.
End Update.

(** *** Concrete runs *)

#[local] Existing Instance Lcg.generator.



Lemma argmax_ties_at_maximum_witness :
  [1; 3; 3] <> [] /\
  exists m action,
    is_max m [1; 3; 3] /\
    argmax_scan 0 [1; 3; 3] None [] = (Some m, indices_equal_to m [1; 3; 3])
    /\ fst (argmax [1; 3; 3] fresh_agent) = Return action.
Proof.
  assert (Hne : [1; 3; 3] <> ([] : list Q)) by discriminate.
  split; [exact Hne|].
  destruct (argmax_ties_at_maximum [1; 3; 3] fresh_agent Hne)
    as (m & action & Hm & Es & _ & Ea & _).
  exists m, action. split; [exact Hm|]. split; [exact Es|].
  now rewrite Ea.
Defined.

(** C1 fails on the code.  Notebook configuration, memory [(0, 1)], then
    [step(1, -1e9)]: every candidate is below [-1e8], so [-1e8], the initial
    [new_val], is what gets written, while the update rule gives a value
    near [-5e8]. *)
Theorem step_writes_floor_instead_of_update :
  let reward := - (1000000000 # 1) in
  let a' := snd (step 1 reward started_agent) in
  exists row m cur_val written,
    q started_agent !! 1%nat = Some row /\ is_max m row /\
    entry (q started_agent) 0 1 = Some cur_val /\
    entry (q a') 0 1 = Some written /\
    0 < step_size started_agent /\
    0 <= discount started_agent /\
    written == neg_1e8 /\
    spec_update started_agent reward cur_val m < written.
Proof.
  cbv zeta. do 4 eexists.
  split; [vm_compute; reflexivity|].
  split; [split; [left; reflexivity|
                  repeat constructor; apply Qle_bool_iff;
                  vm_compute; reflexivity]|].
  split; [vm_compute; reflexivity|].
  split; [vm_compute; reflexivity|].
  split; [apply Qltb_lt; vm_compute; reflexivity|].
  split; [apply Qle_bool_iff; vm_compute; reflexivity|].
  split; [apply Qeq_bool_iff; vm_compute; reflexivity|].
  apply Qltb_lt. vm_compute. reflexivity.
Qed.

(** C7 fails on the code.  Notebook configuration: [start(0)] chooses
    action 1; [step(1, 1)] chooses action 0 and leaves the memory at
    [(0, 1)]; [step(2, 1)] then writes [Q[0, 1]] a second time and leaves
    [Q[1, 0]], the pair of the preceding [step], as it was. *)
Theorem step_does_not_record_memory :
  let a1 := started_agent in
  let a2 := snd (step 1 1 a1) in
  let a3 := snd (step 2 1 a2) in
  fst (start 0 fresh_agent) = Return 1%Z /\
  fst (step 1 1 a1) = Return (0%Z, false) /\
  prev_state a2 = Some 0%Z /\ prev_action a2 = Some 1%Z /\
  fst (step 2 1 a2) = Return (1%Z, false) /\
  entry (q a3) 1 0 = entry (q a2) 1 0 /\
  exists before after,
    entry (q a2) 0 1 = Some before /\
    entry (q a3) 0 1 = Some after /\
    Qeq_bool before after = false.
Proof.
  cbv zeta. do 6 (split; [vm_compute; reflexivity|]).
  do 2 eexists.
  split; [vm_compute; reflexivity|].
  split; vm_compute; reflexivity.
Qed.
End AgentProps.

(** * Further properties *)

(** ** Environment: failures, negative actions, neighbouring states *)

Module EnvironmentExtras.
Import ExampleEnvironment EnvironmentSpec EnvironmentProps.

Lemma getitem_wraps {A} (l : list A) (i : Z) :
  (- Z.of_nat (length l) <= i < 0)%Z ->
  getitem l i = getitem l (i + Z.of_nat (length l)).
Proof.
  intros Hi. unfold getitem.
  rewrite py_index_negative by lia. rewrite py_index_nonneg by lia.
  now replace (Z.of_nat (length l) + i)%Z with (i + Z.of_nat (length l))%Z
    by lia.
Qed.

Lemma rewards_bounds (s a : Z) (row : list Q) (r : Q) :
  (0 <= s < 4)%Z -> the_rewards !! Z.to_nat s = Some row ->
  getitem row a = Return r -> 0 <= r /\ r <= 3.
Proof.
  intros Hs Erow Er. apply getitem_In in Er.
  assert (C : s = 0%Z \/ s = 1%Z \/ s = 2%Z \/ s = 3%Z) by lia.
  destruct C as [-> | [-> | [-> | ->]]]; injection Erow as <-;
    simpl in Er;
    repeat (destruct Er as [<- | Er];
            [split; apply Qle_by_computation; reflexivity|]);
    contradiction.
Qed.

(** Row [s] of the literal matrix gives weight zero to every state that is
    not [s] or one of its neighbours. *)
Lemma tran_matrix_band (s : Z) (k : nat) (p : list Q) (pr : Q) :
  (0 <= s < 4)%Z -> the_tran_matrix !! Z.to_nat s = Some p ->
  p !! k = Some pr -> 0 < pr ->
  (s - 1 <= Z.of_nat k <= s + 1)%Z.
Proof.
  intros Hs Ep Epr Hpos.
  assert (C : s = 0%Z \/ s = 1%Z \/ s = 2%Z \/ s = 3%Z) by lia.
  destruct C as [-> | [-> | [-> | ->]]]; injection Ep as <-;
    destruct k as [|[|[|[|k]]]]; simpl in Epr; try discriminate;
    injection Epr as <-; try lia;
    exfalso; revert Hpos; apply Qle_not_lt;
    apply Qle_by_computation; reflexivity.
Qed.

Section WithGenerator.
Context {G : Type} `{RandomState G}.

(** X1. In any environment reached from a fresh one, [step] raises exactly
    when [start] has not run yet ([TypeError]) or the action is outside
    [-3 .. 2] ([IndexError]); a call that raises leaves the environment as
    it was, generator included. *)
Theorem step_failures (info : env_info) (calls : list call) (action : Z) :
  let e := run calls (__init__ info) in
  (cur_loc e = None -> step action e = (Raise TypeError, e)) /\
  (is_Some (cur_loc e) -> ~ (-3 <= action < 3)%Z ->
   step action e = (Raise IndexError, e)) /\
  (is_Some (cur_loc e) -> (-3 <= action < 3)%Z ->
   exists next_state reward e',
     step action e = (Return (next_state, reward), e')).
Proof.
  intros e.
  destruct (run_ok calls (__init__ info) (env_init_ok info)) as [Hok _].
  fold e in Hok. destruct Hok as ((Hg & Hr & Ht) & Hloc).
  split; [|split].
  - intros Hc. unfold step, bind, gets, lift_outcome. now rewrite Hc.
  - intros [s Hc] Ha. rewrite Hc in Hloc.
    destruct (rewards_rows s Hloc) as (row & Erow & Hlen).
    unfold step, bind, gets, lift_outcome. rewrite Hc. simpl getitem_opt.
    rewrite Hr, (getitem_lookup _ _ row) by (lia || exact Erow).
    rewrite getitem_outside; [reflexivity|]. rewrite Hlen. lia.
  - intros [s Hc] Ha.
    assert (Hok : env_ok e) by (repeat split; assumption).
    destruct (step_cases e action Hok)
      as [(x & E) | (s' & ns & r & g' & _ & _ & E)].
    + exfalso. rewrite Hc in Hloc.
      destruct (rewards_rows s Hloc) as (row & Erow & Hlen).
      destruct (getitem_total row action) as [r Er]; [rewrite Hlen; lia|].
      destruct (rows_accepted s Hloc) as (p & Ep & Hacc & _).
      rewrite (env_step_eq e action s row p r) in E; trivial.
      * destruct (choice_p_eq the_grid p (rand_generator e))
          as (ns & _ & Ec); [discriminate|exact Hacc|].
        rewrite Hg, Ec in E. discriminate.
      * rewrite Hr. apply getitem_lookup; [lia|exact Erow].
      * rewrite Ht. apply getitem_lookup; [lia|exact Ep].
    + eauto.
Qed.

(** X2. On a started environment a negative action [a] in [-3 .. -1] is
    the action [a + 3]: same reward, same next state, same environment
    afterwards. *)
Theorem step_negative_action_wraps (e : self G) (s action : Z) :
  started e s -> (-3 <= action < 0)%Z ->
  step action e = step (action + 3) e.
Proof.
  intros ((Hg & Hr & Ht) & Hc & Hs) Ha.
  destruct (rewards_rows s Hs) as (row & Erow & Hlen).
  destruct (getitem_total row action) as [r Er]; [rewrite Hlen; lia|].
  assert (Er' : getitem row (action + 3) = Return r).
  { rewrite <- Er, (getitem_wraps row action) by (rewrite Hlen; lia).
    now rewrite Hlen. }
  destruct (rows_accepted s Hs) as (p & Ep & _).
  assert (Egr : getitem (rewards e) s = Return row)
    by (rewrite Hr; apply getitem_lookup; [lia|exact Erow]).
  assert (Egp : getitem (tran_matrix e) s = Return p)
    by (rewrite Ht; apply getitem_lookup; [lia|exact Ep]).
  now rewrite (env_step_eq e action s row p r),
              (env_step_eq e (action + 3) s row p r).
Qed.

(** X3. A [step] that returns hands back a reward between 0 and 3 and
    moves the environment to the state it was in or to a neighbour of
    it. *)
Theorem step_moves_to_neighbour (e : self G) (s action : Z) :
  started e s -> (0 <= action < 3)%Z ->
  exists next_state reward e',
    step action e = (Return (next_state, reward), e') /\
    (s - 1 <= next_state <= s + 1)%Z /\
    0 <= reward /\ reward <= 3.
Proof.
  intros Hst Ha.
  destruct (step_valid e s action Hst Ha)
    as (row & p & r & ns & pr & Erow & Er & Ep & Ens & Epr & Hpr & E).
  destruct Hst as (_ & _ & Hs).
  exists ns, r. eexists. split; [exact E|]. split.
  - pose proof (tran_matrix_band s _ p pr Hs Ep Epr Hpr) as Hb.
    rewrite (grid_index _ _ Ens) in Hb.
    pose proof (grid_members _ _ Ens). lia.
  - apply (rewards_bounds s action row r Hs Erow).
    apply getitem_lookup; [lia|exact Er].
Qed.
End WithGenerator.

#[local] Existing Instance Lcg.generator.

Lemma step_negative_action_wraps_witness :
  started started_env 0 /\ (-3 <= -1 < 0)%Z /\
  step (-1) started_env = step (-1 + 3) started_env.
Proof.
  split; [exact started_env_started|]. split; [lia|].
  apply (step_negative_action_wraps started_env 0 (-1));
    [exact started_env_started|lia].
Defined.

Lemma step_moves_to_neighbour_witness :
  started started_env 0 /\ (0 <= 1 < 3)%Z /\
  exists next_state reward e',
    step 1 started_env = (Return (next_state, reward), e') /\
    (0 - 1 <= next_state <= 0 + 1)%Z /\ 0 <= reward /\ reward <= 3.
Proof.
  split; [exact started_env_started|]. split; [lia|].
  apply (step_moves_to_neighbour started_env 0 1);
    [exact started_env_started|lia].
Defined.
End EnvironmentExtras.

(** ** Value iteration: bounds, stopping and termination *)

Module ValueIterationExtras.
Import ExampleEnvironment ValueIteration ValueIterationSpec BoundSpec.
Import EnvironmentProps ValueIterationProps.

Lemma backup_upper (r gamma M : Q) (row sv : list Q) :
  0 <= gamma -> 0 <= r + gamma * M ->
  Forall (Qle 0) row -> Forall (fun v => v <= M) sv ->
  backup r gamma row sv <= (r + gamma * M) * np_sum row.
Proof.
  intros Hg Hr Hrow. unfold backup. revert sv.
  induction Hrow as [|a row Ha Hrow IH]; intros sv Hsv.
  - simpl. unfold np_sum. simpl. lra.
  - pose proof (np_sum_nonneg row Hrow) as Hsum.
    change (np_sum (a :: row)) with (a + np_sum row).
    destruct Hsv as [|x sv Hx Hsv].
    + change (np_sum (zip_mul (a :: row)
                        (scalar_add r (scalar_mul gamma []))))
        with 0.
      nra.
    + specialize (IH sv Hsv).
      change (a * (r + gamma * x)
                + np_sum (zip_mul row (scalar_add r (scalar_mul gamma sv)))
              <= (r + gamma * M) * (a + np_sum row)).
      assert (gamma * x <= gamma * M) by nra.
      assert (a * (r + gamma * x) <= a * (r + gamma * M)) by nra.
      nra.
Qed.

Lemma backup_lower (r gamma : Q) (row sv : list Q) :
  0 <= gamma -> 0 <= r ->
  Forall (Qle 0) row -> Forall (Qle 0) sv ->
  0 <= backup r gamma row sv.
Proof.
  intros Hg Hr Hrow. unfold backup. revert sv.
  induction Hrow as [|a row Ha Hrow IH]; intros sv Hsv.
  - simpl. unfold np_sum. simpl. lra.
  - destruct Hsv as [|x sv Hx Hsv].
    + change (0 <= 0). lra.
    + specialize (IH sv Hsv).
      change (0 <= a * (r + gamma * x)
                   + np_sum (zip_mul row
                               (scalar_add r (scalar_mul gamma sv)))).
      assert (0 <= gamma * x) by nra.
      assert (0 <= a * (r + gamma * x)) by nra.
      lra.
Qed.

Lemma rewards_row_bounds (s : Z) (rs : list Q) :
  (0 <= s < 4)%Z -> the_rewards !! Z.to_nat s = Some rs ->
  Forall (fun r => 0 <= r /\ r <= 3) rs.
Proof.
  intros Hs Ers.
  assert (C : s = 0%Z \/ s = 1%Z \/ s = 2%Z \/ s = 3%Z) by lia.
  destruct C as [-> | [-> | [-> | ->]]]; injection Ers as <-;
    repeat constructor; apply Qle_by_computation; reflexivity.
Qed.

Lemma best_backup_bounds (gamma M : Q) (row rs sv : list Q) :
  0 <= gamma -> 0 <= M -> 3 + gamma * M <= M ->
  Forall (Qle 0) row -> np_sum row == 1 ->
  rs <> [] -> Forall (fun r => 0 <= r /\ r <= 3) rs ->
  Forall (fun v => 0 <= v /\ v <= M) sv ->
  0 <= best_backup gamma row rs sv /\ best_backup gamma row rs sv <= M.
Proof.
  intros Hg HM Hfix Hrow Hsum Hne Hrs Hsv.
  assert (Hlo : Forall (Qle 0) sv)
    by (eapply Forall_impl; [exact Hsv|]; simpl; intros v [? _]; trivial).
  assert (Hup : Forall (fun v => v <= M) sv)
    by (eapply Forall_impl; [exact Hsv|]; simpl; intros v [_ ?]; trivial).
  assert (Hall : Forall (fun v => 0 <= v /\ v <= M)
                   (map (fun r => backup r gamma row sv) rs)).
  { apply Forall_map. eapply Forall_impl; [exact Hrs|].
    simpl. intros r [Hr0 Hr3]. split.
    - now apply backup_lower.
    - assert (0 <= gamma * M) by nra.
      pose proof (backup_upper r gamma M row sv Hg) as Hb.
      rewrite Hsum in Hb. specialize (Hb ltac:(lra) Hrow Hup). lra. }
  unfold best_backup. destruct rs as [|r rs]; [congruence|].
  simpl map in *. inversion Hall as [|v vs [Hv0 HvM] Hvs]; subst.
  split.
  - pose proof (fold_pymax_ge (map (fun r => backup r gamma row sv) rs)
                  (backup r gamma row sv)). lra.
  - destruct (AgentProps.fold_pymax_In
                (map (fun r => backup r gamma row sv) rs)
                (backup r gamma row sv)) as [-> | I]; [exact HvM|].
    rewrite Forall_forall in Hvs. apply list_elem_of_In in I.
    apply (Hvs _ I).
Qed.

Lemma np_sum_insert (sv : list Q) (k : nat) (old new : Q) :
  sv !! k = Some old ->
  np_sum (<[k := new]> sv) == np_sum sv + (new - old).
Proof.
  revert k. induction sv as [|x sv IH]; intros k Ek; [discriminate|].
  destruct k as [|k]; simpl in Ek.
  - injection Ek as ->.
    change (new + np_sum sv == (old + np_sum sv) + (new - old)). lra.
  - specialize (IH k Ek).
    change (x + np_sum (<[k := new]> sv)
            == (x + np_sum sv) + (new - old)).
    lra.
Qed.

Lemma np_sum_bounded (M : Q) (sv : list Q) :
  bounded M sv -> 0 <= np_sum sv /\ np_sum sv <= 4 * M.
Proof.
  intros [Hlen Hall].
  destruct sv as [|a [|b [|c [|d [|]]]]]; try discriminate.
  inversion Hall as [|? ? [La Ua] Hall1]; subst.
  inversion Hall1 as [|? ? [Lb Ub] Hall2]; subst.
  inversion Hall2 as [|? ? [Lc Uc] Hall3]; subst.
  inversion Hall3 as [|? ? [Ld Ud] _]; subst.
  unfold np_sum. simpl. lra.
Qed.

Lemma pymax_le_sum (d x : Q) : 0 <= d -> 0 <= x -> pymax d x <= d + x.
Proof.
  intros Hd Hx. destruct (pymax_cases d x) as [[_ ->] | [_ ->]]; lra.
Qed.

Section WithGenerator.
Context {G : Type} `{RandomState G}.

(** One assignment, for any discount: the entry of [s] becomes its best
    backup and [delta] takes the change into account. *)
Lemma visit_plain (env : self G) (gamma : Q) (l : locals) (s : Z) :
  model_ok env -> length (s_vals l) = 4%nat -> (0 <= s < 4)%Z ->
  exists row rs cur,
    tran_matrix env !! Z.to_nat s = Some row /\
    rewards env !! Z.to_nat s = Some rs /\
    s_vals l !! Z.to_nat s = Some cur /\
    visit env gamma (range 3) s l
    = (Return tt,
       {| s_vals :=
            <[Z.to_nat s := best_backup gamma row rs (s_vals l)]> (s_vals l);
          delta :=
            pymax (delta l)
              (Qabs (cur - best_backup gamma row rs (s_vals l))) |}).
Proof.
  intros [_ Hm] Hlen Hs.
  destruct (Hm s Hs) as (row & rs & Erow & Lrow & _ & Ers & Lrs & _).
  destruct (lookup_lt_is_Some_2 (s_vals l) (Z.to_nat s)) as [cur Ecur];
    [lia|].
  exists row, rs, cur. repeat (split; [assumption|]).
  now apply visit_eq.
Qed.



End WithGenerator.

Section Run.
Context {G : Type} `{RandomState G}.
Variable info : env_info.
Variables gamma theta : Q.

Let env : self G := __init__ info.



End Run.

Section Stopping.
Context {G : Type} `{RandomState G}.


(** X5. With a threshold that is not positive the loop is never entered:
    [delta = theta * 10] is then at most [theta], and the table of zeros
    is returned whatever the discount. *)
Theorem value_iteration_nonpositive_theta
    (fuel : nat) (theta discount : Q) :
  theta <= 0 ->
  value_iteration (G := G) fuel theta discount
  = Some (Return (replicate 4 0)).
Proof.
  intros Ht. unfold value_iteration.
  assert (E : Qltb theta (theta * 10) = false) by (apply Qltb_ge; lra).
  destruct fuel; cbn [while_loop delta]; now rewrite E.
Qed.
End Stopping.

Section Potential.
Context {G : Type} `{RandomState G}.
Variable info : env_info.
Variables gamma M : Q.
Hypothesis Hgamma : 0 <= gamma.
Hypothesis HM : 0 <= M.
Hypothesis Hfix : 3 + gamma * M <= M.

Let env : self G := __init__ info.

(** One assignment under the two invariants: the entries stay within
    [[0, M]], and [delta] grows by no more than the sum of the table. *)
Lemma visit_potential (l : locals) (s : Z) :
  (0 <= s < 4)%Z ->
  improving env gamma (s_vals l) -> bounded M (s_vals l) ->
  0 <= delta l ->
  exists l',
    visit env gamma (range 3) s l = (Return tt, l') /\
    improving env gamma (s_vals l') /\ bounded M (s_vals l') /\
    0 <= delta l' /\
    delta l' - delta l <= np_sum (s_vals l') - np_sum (s_vals l).
Proof.
  intros Hs Himp [Hlen Hall] Hd.
  pose proof (init_model_ok info) as Hm. fold env in Hm.
  destruct (visit_plain env gamma l s Hm Hlen Hs)
    as (row & rs & cur & Erow & Ers & Ecur & E).
  destruct (visit_improves env gamma Hgamma Hm l s Hs Himp)
    as (l2 & _ & _ & E2 & _ & _ & _ & _ & Himp2).
  set (b := best_backup gamma row rs (s_vals l)) in *.
  assert (El : l2 = {| s_vals := <[Z.to_nat s := b]> (s_vals l);
                       delta := pymax (delta l) (Qabs (cur - b)) |})
    by congruence.
  subst l2.
  assert (Hle : cur <= b) by (apply (proj2 Himp s row rs cur); assumption).
  assert (Hb : 0 <= b /\ b <= M).
  { destruct (rows_accepted s Hs) as (p & Ep & (_ & Hnn & _) & Hsum).
    assert (p = row) by (simpl in Erow; congruence). subst p.
    unfold b. apply best_backup_bounds; trivial.
    - destruct (rewards_rows s Hs) as (rs' & Ers' & Lrs).
      assert (rs' = rs) by (simpl in Ers; congruence). subst rs'.
      destruct rs; [discriminate|congruence].
    - now apply (rewards_row_bounds s). }
  eexists. split; [exact E|]. cbn [s_vals delta].
  split; [exact Himp2|]. split; [|split].
  - split; [now rewrite length_insert|]. now apply Forall_insert.
  - pose proof (pymax_ge_l (delta l) (Qabs (cur - b))). lra.
  - rewrite (np_sum_insert (s_vals l) (Z.to_nat s) cur b Ecur).
    assert (Ea : Qabs (cur - b) == b - cur)
      by (rewrite Qabs_neg by lra; ring).
    pose proof (pymax_le_sum (delta l) (Qabs (cur - b)) Hd
                  (Qabs_nonneg _)).
    lra.
Qed.

Lemma for_each_potential (states : list Z) (l : locals) :
  Forall (fun s => (0 <= s < 4)%Z) states ->
  improving env gamma (s_vals l) -> bounded M (s_vals l) ->
  0 <= delta l ->
  exists l',
    for_each states (visit env gamma (range 3)) l = (Return tt, l') /\
    improving env gamma (s_vals l') /\ bounded M (s_vals l') /\
    0 <= delta l' /\
    delta l' - delta l <= np_sum (s_vals l') - np_sum (s_vals l).
Proof.
  intros Hst. revert l.
  induction Hst as [|s states Hs _ IH]; intros l Himp Hb Hd.
  - exists l. repeat split; try assumption; try apply Himp; try apply Hb.
    lra.
  - destruct (visit_potential l s Hs Himp Hb Hd)
      as (l1 & E1 & Himp1 & Hb1 & Hd1 & Hp1).
    destruct (IH l1 Himp1 Hb1 Hd1) as (l2 & E2 & Himp2 & Hb2 & Hd2 & Hp2).
    exists l2. split; [simpl; unfold bind; now rewrite E1|].
    repeat (split; [assumption|]). lra.
Qed.

Lemma sweep_potential (l : locals) :
  improving env gamma (s_vals l) -> bounded M (s_vals l) ->
  exists l',
    sweep env gamma (range 3) l = (Return tt, l') /\
    improving env gamma (s_vals l') /\ bounded M (s_vals l') /\
    0 <= delta l' /\
    delta l' <= np_sum (s_vals l') - np_sum (s_vals l).
Proof.
  intros Himp Hb.
  destruct (for_each_potential the_grid (set_delta 0 l))
    as (l' & E & Himp' & Hb' & Hd' & Hp'); trivial.
  - repeat constructor; lia.
  - simpl. lra.
  - exists l'. split; [exact E|]. repeat (split; [assumption|]).
    cbn [set_delta delta s_vals] in Hp'. lra.
Qed.

Lemma initial_invariants (theta : Q) :
  improving env gamma (s_vals (initial theta)) /\
  bounded M (s_vals (initial theta)).
Proof.
  split; [apply improving_zero, init_model_ok|].
  split; [reflexivity|]. repeat constructor; lra.
Qed.


(** The loop stops before its fuel is spent once the fuel outweighs what
    the sum of the table can still grow by. *)
Lemma while_loop_terminates (theta : Q) (fuel : nat) (l : locals) :
  0 < theta ->
  improving env gamma (s_vals l) -> bounded M (s_vals l) ->
  (theta < delta l ->
   4 * M - np_sum (s_vals l) + theta < inject_Z (Z.of_nat fuel) * theta) ->
  exists l',
    while_loop fuel env theta gamma (range 3) l = Some (Return tt, l').
Proof.
  intros Ht. revert l.
  induction fuel as [|fuel IH]; intros l Himp Hb Hfuel;
    pose proof (np_sum_bounded M _ Hb) as [_ Hsum];
    cbn [while_loop]; destruct (Qltb theta (delta l)) eqn:Ed;
    try (now exists l).
  - apply Qltb_lt in Ed. specialize (Hfuel Ed).
    change (inject_Z (Z.of_nat 0)) with 0 in Hfuel. lra.
  - apply Qltb_lt in Ed. specialize (Hfuel Ed).
    destruct (sweep_potential l Himp Hb)
      as (l1 & E1 & Himp1 & Hb1 & _ & Hp1).
    rewrite E1. apply IH; trivial.
    intros Ed1.
    rewrite Nat2Z.inj_succ in Hfuel. unfold Z.succ in Hfuel.
    rewrite inject_Z_plus in Hfuel.
    change (inject_Z 1) with 1 in Hfuel. lra.
Qed.
End Potential.

Section Bounds.
Context {G : Type} `{RandomState G}.


(** X7. [value_iteration] terminates: for a positive threshold, a discount
    that is not negative and a bound [M] as above, [n] passes are enough
    as soon as [4 * M + theta < n * theta] (each pass that does not end the
    loop raises the sum of the table by more than [theta], and that sum
    never exceeds [4 * M]). *)
Theorem value_iteration_terminates (theta discount M : Q) (n : Z) :
  0 < theta -> 0 <= discount -> 0 <= M -> 3 + discount * M <= M ->
  4 * M + theta < inject_Z n * theta ->
  exists v, value_iteration (G := G) (Z.to_nat n) theta discount
            = Some (Return v).
Proof.
  intros Ht Hg HM Hfix Hn.
  assert (Hpos : (0 <= n)%Z).
  { destruct (Z_lt_le_dec n 0) as [Hneg|]; [|assumption].
    assert (Hle : inject_Z n <= inject_Z 0) by (rewrite <- Zle_Qle; lia).
    change (inject_Z 0) with 0 in Hle. nra. }
  destruct (initial_invariants {| info_seed := None |} discount M HM theta)
    as [Himp Hb].
  destruct (while_loop_terminates {| info_seed := None |} discount M
              Hg HM Hfix theta (Z.to_nat n) (initial theta) Ht Himp Hb)
    as (l' & E).
  - intros _. rewrite Z2Nat.id by exact Hpos.
    change (np_sum (s_vals (initial theta))) with (np_sum (replicate 4 0)).
    assert (E0 : np_sum (replicate 4 0) == 0) by reflexivity.
    rewrite E0. lra.
  - unfold value_iteration.
    change {| s_vals := replicate 4 0; delta := theta * 10 |}
      with (initial theta).
    rewrite E. eauto.
Qed.
End Bounds.

#[local] Existing Instance Lcg.generator.

Lemma value_iteration_nonpositive_theta_witness :
  0 <= 0 /\
  value_iteration (G := Z) 5 0 (9 # 10) = Some (Return (replicate 4 0)).
Proof.
  assert (H0 : 0 <= 0) by lra. split; [exact H0|].
  apply (value_iteration_nonpositive_theta 5 0 (9 # 10) H0).
Defined.



Lemma value_iteration_terminates_witness :
  0 < 1 # 100 /\ 0 <= 9 # 10 /\ 0 <= 30 /\ 3 + (9 # 10) * 30 <= 30 /\
  4 * 30 + (1 # 100) < inject_Z 12002 * (1 # 100) /\
  exists v, value_iteration (G := Z) (Z.to_nat 12002) (1 # 100) (9 # 10)
            = Some (Return v).
Proof.
  assert (Ht : 0 < 1 # 100) by (apply Qltb_lt; reflexivity).
  assert (Hg : 0 <= 9 # 10) by (apply Qle_bool_iff; reflexivity).
  assert (HM : 0 <= 30) by (apply Qle_bool_iff; reflexivity).
  assert (Hfix : 3 + (9 # 10) * 30 <= 30)
    by (apply Qle_bool_iff; reflexivity).
  assert (Hn : 4 * 30 + (1 # 100) < inject_Z 12002 * (1 # 100))
    by (apply Qltb_lt; reflexivity).
  repeat (split; [assumption|]).
  apply (value_iteration_terminates (1 # 100) (9 # 10) 30 12002
           Ht Hg HM Hfix Hn).
Defined.
End ValueIterationExtras.

(** ** Agent: actions, failures, greedy choice, bounded table *)

Module AgentExtras.
Import QLearningAgent AgentSpec AgentProps AgentCalls BoundSpec.

Lemma indices_equal_to_In (m : Q) (vs : list Q) (i : Z) :
  In i (indices_equal_to m vs) ->
  exists k v, i = Z.of_nat k /\ vs !! k = Some v /\ v == m.
Proof.
  unfold indices_equal_to, range. intros Hin.
  apply filter_In in Hin as [Hin Hv].
  apply in_map_iff in Hin as (k & <- & _).
  rewrite Nat2Z.id in Hv.
  destruct (vs !! k) as [v|] eqn:Ev; [|discriminate].
  exists k, v. repeat split; trivial. now apply Qeq_bool_iff.
Qed.

Lemma setitem2_shape (t t' : list (list Q)) (i j : Z) (x : Q) :
  setitem2 t i j x = Return t' ->
  length t' = length t /\
  (Forall (fun row => length row = 3%nat) t ->
   Forall (fun row => length row = 3%nat) t').
Proof.
  unfold setitem2, setitem.
  destruct (getitem t i) as [row|] eqn:Er; [|discriminate]. simpl.
  destruct (py_index (length row) j) as [kj|]; [|discriminate]. simpl.
  destruct (py_index (length t) i) as [ki|] eqn:Ei; [|discriminate].
  intros [= <-]. split; [apply length_insert|].
  intros Hall. apply Forall_insert; [exact Hall|].
  rewrite length_insert.
  apply getitem_Return in Er as (k & _ & Ek).
  rewrite Forall_lookup in Hall. exact (Hall k row Ek).
Qed.

Section WithGenerator.
Context {G : Type} `{RandomState G}.

Lemma start_frame (a : self G) (state : Z) :
  exists g' ps pa,
    snd (start state a) = set_prev ps pa (set_rand_generator g' a).
Proof.
  unfold start, bind, gets, lift_outcome, modify, ret.
  destruct (getitem (q a) state) as [row|].
  - destruct (epsilon_greedy_frame row a) as [g' Eg].
    destruct (epsilon_greedy row a) as [[action|x] a1]; simpl in Eg;
      subst a1.
    + now exists g', (Some state), (Some action).
    + exists g', (prev_state a), (prev_action a). now destruct a.
  - exists (rand_generator a), (prev_state a), (prev_action a).
    now destruct a.
Qed.

Lemma step_frame (a : self G) (state : Z) (reward : Q) :
  exists g',
    snd (step state reward a) = set_rand_generator g' a \/
    exists ps pa new t',
      setitem2 (q a) ps pa new = Return t' /\
      snd (step state reward a) = set_q t' (set_rand_generator g' a).
Proof.
  unfold step, bind, gets, lift_outcome, modify, ret, raise.
  destruct (getitem (q a) state) as [row|];
    [|exists (rand_generator a); left; now destruct a].
  destruct (epsilon_greedy_frame row a) as [g' Eg].
  exists g'.
  destruct (epsilon_greedy row a) as [[action|x] a1]; simpl in Eg;
    subst a1; [|now left].
  change (prev_state (set_rand_generator g' a)) with (prev_state a).
  change (prev_action (set_rand_generator g' a)) with (prev_action a).
  destruct (prev_state a) as [ps|], (prev_action a) as [pa|];
    try (now left);
    try (cbv beta; destruct (getitem (q a) _); now left).
  cbv beta.
  destruct (getitem2 (q a) ps pa) as [cur|]; [|now left].
  pose proof (step_loop_frame
                (range (Z.to_nat (num_actions (set_rand_generator g' a))))
                state reward cur neg_1e8 (set_rand_generator g' a)) as El.
  destruct (step_loop _ state reward cur neg_1e8 _) as [[new|x] a2];
    simpl in El; subst a2; [|now left].
  destruct (setitem2 (q a) ps pa new) as [t'|] eqn:Et; [|now left].
  right. exists ps, pa, new, t'. split; [exact Et|].
  now destruct (Qltb _ _).
Qed.

Lemma calls_keep_agent_ok (a : self G) (c : call) :
  agent_ok a -> agent_ok (perform a c).
Proof.
  intros (Hn & Hns & Hlen & Hrows). destruct c as [state|state reward];
    simpl.
  - destruct (start_frame a state) as (g' & ps & pa & ->).
    repeat split; assumption.
  - destruct (step_frame a state reward)
      as (g' & [-> | (ps & pa & new & t' & Et & ->)]).
    + repeat split; assumption.
    + apply setitem2_shape in Et as [Hl Hr].
      repeat split; trivial; cbn [q set_q].
      * now rewrite Hl.
      * now apply Hr.
Qed.

(** X8. The table keeps its four rows of three entries, and the agent its
    three actions and four states, through any sequence of [start] and
    [step] calls on a new agent, whatever their arguments and whether or
    not they raise. *)
Theorem agent_shape_is_kept (info : agent_info) (calls : list call) :
  let a := run calls (__init__ info) in
  num_actions a = 3%Z /\ num_states a = 4%Z /\
  length (q a) = 4%nat /\ Forall (fun row => length row = 3%nat) (q a).
Proof.
  cbv zeta. unfold run.
  generalize (agent_init_ok info).
  generalize (__init__ info).
  induction calls as [|c calls IH]; intros a Hok; [exact Hok|].
  simpl. apply IH, calls_keep_agent_ok, Hok.
Qed.
End WithGenerator.

Section Choice.
Context {G : Type} `{RandomState G}.

Lemma epsilon_greedy_exploits (current_q : list Q) (a : self G) :
  epsilon a <= 0 ->
  epsilon_greedy current_q a
  = argmax current_q
      (set_rand_generator (snd (random_sample (rand_generator a))) a).
Proof.
  intros He. unfold epsilon_greedy, bind, zoom, gets. rewrite rand_eq.
  cbn [fst snd].
  change (epsilon (set_rand_generator _ a)) with (epsilon a).
  destruct (random_sample_range (rand_generator a)) as [Hu _].
  assert (E : Qltb (fst (random_sample (rand_generator a))) (epsilon a)
              = false) by (apply Qltb_ge; lra).
  now rewrite E.
Qed.

Lemma epsilon_greedy_explores (current_q : list Q) (a : self G) :
  1 <= epsilon a -> num_actions a = 3%Z ->
  let g1 := snd (random_sample (rand_generator a)) in
  epsilon_greedy current_q a
  = (Return (fst (random_below 3 g1)),
     set_rand_generator (snd (random_below 3 g1)) a).
Proof.
  intros He Hn g1. unfold epsilon_greedy, bind, zoom, gets.
  rewrite rand_eq. cbn [fst snd].
  change (epsilon (set_rand_generator _ a)) with (epsilon a).
  destruct (random_sample_range (rand_generator a)) as [_ Hu].
  assert (E : Qltb (fst (random_sample (rand_generator a))) (epsilon a)
              = true) by (apply Qltb_lt; lra).
  rewrite E.
  change (num_actions (set_rand_generator _ a)) with (num_actions a).
  rewrite Hn.
  change (rand_generator (set_rand_generator g1 a)) with g1.
  rewrite randint_eq by lia. reflexivity.
Qed.

(** The action [step] returns is the one its epsilon-greedy choice made
    on row [state]. *)
Lemma step_action (a a1 a' : self G) (state : Z) (reward : Q)
    (row : list Q) (action : Z) (res : Z * bool) :
  getitem (q a) state = Return row ->
  epsilon_greedy row a = (Return action, a1) ->
  step state reward a = (Return res, a') ->
  fst res = action.
Proof.
  intros Er Ee. unfold step, bind, gets, lift_outcome, modify, ret, raise.
  rewrite Er, Ee.
  destruct (prev_state a1) as [ps|], (prev_action a1) as [pa|];
    try discriminate; cbv beta;
    try match goal with
        | |- context [getitem (q a) ?i] =>
            destruct (getitem (q a) i); discriminate
        end.
  destruct (getitem2 (q a) ps pa) as [cur|]; [|discriminate].
  destruct (step_loop _ state reward cur neg_1e8 a1) as [[new|x] a2];
    [|discriminate].
  destruct (setitem2 (q a) ps pa new) as [t'|]; [|discriminate].
  destruct (Qltb _ _); intros [= <- _]; reflexivity.
Qed.

Lemma argmax_picks_maximum (row : list Q) (a : self G) :
  row <> [] ->
  exists action a' k v,
    argmax row a = (Return action, a') /\
    action = Z.of_nat k /\ row !! k = Some v /\
    Forall (fun w => w <= v) row.
Proof.
  intros Hne.
  destruct (argmax_eq row a Hne) as (m & action & [_ Hup] & _ & Ea & Eg).
  apply list_elem_of_lookup_2, list_elem_of_In, indices_equal_to_In in Ea
    as (k & v & -> & Ev & Hvm).
  exists (Z.of_nat k). eexists. exists k, v.
  split; [exact Eg|]. repeat split; trivial.
  eapply Forall_impl; [exact Hup|]. simpl. intros w Hw. lra.
Qed.

(** X9. With [epsilon <= 0] the agent is greedy: the action returned by
    [start], and by any [step] that returns, indexes an entry of row
    [state] that no entry of that row exceeds. *)
Theorem greedy_when_epsilon_is_zero (a : self G) (state : Z) :
  agent_ok a -> valid_index 4 state -> epsilon a <= 0 ->
  exists row,
    getitem (q a) state = Return row /\
    (exists action a' v,
        start state a = (Return action, a') /\
        getitem row action = Return v /\
        Forall (fun w => w <= v) row) /\
    (forall reward res a',
        step state reward a = (Return res, a') ->
        exists v, getitem row (fst res) = Return v /\
                  Forall (fun w => w <= v) row).
Proof.
  intros (Hn & _ & Hlen & Hrows) Hs He.
  destruct (getitem_valid (q a) 4 state Hlen Hs) as (k & row & _ & Ek & Eg).
  assert (Lrow : length row = 3%nat)
    by (rewrite Forall_lookup in Hrows; exact (Hrows k row Ek)).
  assert (Hne : row <> []) by (destruct row; [discriminate|congruence]).
  destruct (argmax_picks_maximum row
              (set_rand_generator
                 (snd (random_sample (rand_generator a))) a) Hne)
    as (action & a1 & j & v & Ea & -> & Ev & Hup).
  rewrite <- (epsilon_greedy_exploits row a He) in Ea.
  assert (Egv : getitem row (Z.of_nat j) = Return v)
    by (apply getitem_lookup; [lia|now rewrite Nat2Z.id]).
  exists row. split; [exact Eg|]. split.
  - exists (Z.of_nat j). eexists. exists v. split; [|now split].
    unfold start, bind, gets, lift_outcome, modify, ret.
    rewrite Eg, Ea. reflexivity.
  - intros reward res a' Es.
    rewrite (step_action a a1 a' state reward row (Z.of_nat j) res Eg Ea Es).
    now exists v.
Qed.

(** X10. With [epsilon >= 1] the agent only explores: the action [start]
    returns is the generator's integer draw below 3 that follows its
    uniform draw, whatever the table holds. *)
Theorem explores_when_epsilon_is_one (a : self G) (state : Z) :
  agent_ok a -> valid_index 4 state -> 1 <= epsilon a ->
  let g1 := snd (random_sample (rand_generator a)) in
  start state a
  = (Return (fst (random_below 3 g1)),
     set_prev (Some state) (Some (fst (random_below 3 g1)))
       (set_rand_generator (snd (random_below 3 g1)) a)).
Proof.
  intros (Hn & _ & Hlen & _) Hs He g1.
  destruct (getitem_valid (q a) 4 state Hlen Hs) as (k & row & _ & _ & Eg).
  unfold start, bind, gets, lift_outcome, modify, ret.
  rewrite Eg, (epsilon_greedy_explores row a He Hn). reflexivity.
Qed.

(** X11. When one entry of the list is strictly above all the others,
    [argmax] returns its index whatever the generator draws. *)
Theorem argmax_unique_maximum
    (q_values : list Q) (k : nat) (v : Q) (a : self G) :
  q_values !! k = Some v ->
  (forall j w, q_values !! j = Some w -> j <> k -> w < v) ->
  exists g',
    argmax q_values a = (Return (Z.of_nat k), set_rand_generator g' a).
Proof.
  intros Ek Hstrict.
  assert (Hne : q_values <> []) by (destruct q_values; [discriminate|easy]).
  destruct (argmax_eq q_values a Hne)
    as (m & action & [_ Hup] & _ & Ea & Eg).
  apply list_elem_of_lookup_2, list_elem_of_In, indices_equal_to_In in Ea
    as (j & w & -> & Ew & Hwm).
  rewrite Forall_forall in Hup.
  assert (Hvm : v <= m) by (apply Hup; eapply list_elem_of_lookup_2, Ek).
  destruct (decide (j = k)) as [-> | Hjk].
  - eexists. exact Eg.
  - pose proof (Hstrict j w Ew Hjk). lra.
Qed.
End Choice.

Section Calls.
Context {G : Type} `{RandomState G}.

(** X12. On an agent of the right shape and a state numpy accepts,
    [start] returns an action among 0, 1, 2, and so does every [step] that
    returns: the action can always be handed to the environment. *)
Theorem actions_are_valid (a : self G) (state : Z) :
  agent_ok a -> valid_index 4 state ->
  (exists action a',
      start state a = (Return action, a') /\ (0 <= action < 3)%Z) /\
  (forall reward res a',
      step state reward a = (Return res, a') -> (0 <= fst res < 3)%Z).
Proof.
  intros Hok Hs. split.
  - destruct (agent_start_eq a state Hok Hs) as (action & g' & Ha & E).
    exists action. eexists. split; [exact E|exact Ha].
  - destruct Hok as (Hn & _ & Hlen & Hrows).
    destruct (getitem_valid (q a) 4 state Hlen Hs)
      as (k & row & _ & Ek & Eg).
    assert (Lrow : length row = 3%nat)
      by (rewrite Forall_lookup in Hrows; exact (Hrows k row Ek)).
    destruct (epsilon_greedy_eq row a Hn Lrow) as (action & g' & Ha & Ee).
    intros reward res a' Es.
    now rewrite (step_action a _ a' state reward row action res Eg Ee Es).
Qed.

(** X13. A state outside [-4 .. 3] makes [start] and [step] raise
    [IndexError] at their first line: nothing of the agent changes, the
    generator included. *)
Theorem invalid_state_raises (a : self G) (state : Z) :
  agent_ok a -> ~ valid_index 4 state ->
  start state a = (Raise IndexError, a) /\
  forall reward, step state reward a = (Raise IndexError, a).
Proof.
  intros (_ & _ & Hlen & _) Hs.
  assert (E : getitem (q a) state = Raise IndexError).
  { apply getitem_outside. rewrite Hlen. unfold valid_index in Hs. lia. }
  split; [|intros reward];
    unfold start, step, bind, gets, lift_outcome; now rewrite E.
Qed.

(** X14. A [step] before any [start] raises [ValueError] after the
    epsilon-greedy choice has been made: the table and the (empty) memory
    are as before, the generator has advanced. *)
Theorem step_before_start_raises (a : self G) (state : Z) (reward : Q) :
  agent_ok a -> valid_index 4 state ->
  prev_state a = None -> prev_action a = None ->
  exists g',
    step state reward a = (Raise ValueError, set_rand_generator g' a).
Proof.
  intros (Hn & _ & Hlen & Hrows) Hs Hps Hpa.
  destruct (getitem_valid (q a) 4 state Hlen Hs) as (k & row & _ & Ek & Eg).
  assert (Lrow : length row = 3%nat)
    by (rewrite Forall_lookup in Hrows; exact (Hrows k row Ek)).
  destruct (epsilon_greedy_eq row a Hn Lrow) as (action & g' & _ & Ee).
  exists g'. unfold step, bind, gets, lift_outcome, raise.
  rewrite Eg, Ee.
  change (prev_state (set_rand_generator g' a)) with (prev_state a).
  change (prev_action (set_rand_generator g' a)) with (prev_action a).
  now rewrite Hps, Hpa.
Qed.




(** What one [step] keeps and changes, for a memory [(ps, pa)] of
    non-negative indices. *)
Lemma step_summary (a : self G) (state : Z) (reward : Q) (ps pa : Z) :
  agent_ok a -> valid_index 4 state ->
  prev_state a = Some ps -> prev_action a = Some pa ->
  (0 <= ps < 4)%Z -> (0 <= pa < 3)%Z ->
  exists action converged a',
    step state reward a = (Return (action, converged), a') /\
    (0 <= action < 3)%Z /\ agent_ok a' /\
    prev_state a' = Some ps /\ prev_action a' = Some pa /\
    step_size a' = step_size a /\ discount a' = discount a /\
    forall i j, (i, j) <> (Z.to_nat ps, Z.to_nat pa) ->
      entry (q a') i j = entry (q a) i j.
Proof.
  intros Hok Hs Hps Hpa Vps Vpa.
  assert (Vps' : valid_index 4 ps) by (unfold valid_index; lia).
  assert (Vpa' : valid_index 3 pa) by (unfold valid_index; lia).
  destruct (agent_step_eq a state reward ps pa Hok Hs Hps Hpa Vps' Vpa')
    as (action & g' & k & row & i & prow & j & cur & Ha & _ & _ & _
        & Ei & Eprow & Ej & Ecur & E).
  cbv zeta in E.
  rewrite py_index_nonneg in Ei by lia. injection Ei as <-.
  rewrite py_index_nonneg in Ej by lia. injection Ej as <-.
  do 3 eexists. split; [exact E|]. split; [exact Ha|].
  split.
  { pose proof (step_ok a state reward ps pa Hok Hs Hps Hpa Vps' Vpa')
      as Hok'.
    now rewrite E in Hok'. }
  repeat (split; [assumption || reflexivity|]).
  intros i j Hne. cbn [q set_q]. now apply entry_insert_other.
Qed.

End Calls.

(** *** Concrete runs *)

#[local] Existing Instance Lcg.generator.

Lemma valid_state_1 : valid_index 4 1.
Proof. unfold valid_index. simpl. lia. Defined.



Lemma greedy_when_epsilon_is_zero_witness :
  agent_ok (__init__ (G := Z) (with_epsilon 0)) /\ valid_index 4 1 /\
  epsilon (__init__ (G := Z) (with_epsilon 0)) <= 0 /\
  exists row action a' v,
    start 1 (__init__ (G := Z) (with_epsilon 0)) = (Return action, a') /\
    getitem row action = Return v /\
    Forall (fun w => w <= v) row.
Proof.
  assert (He : epsilon (__init__ (G := Z) (with_epsilon 0)) <= 0)
    by (apply Qle_bool_iff; vm_compute; reflexivity).
  split; [apply agent_init_ok|]. split; [exact valid_state_1|].
  split; [exact He|].
  destruct (greedy_when_epsilon_is_zero _ 1 (agent_init_ok _)
              valid_state_1 He)
    as (row & _ & (action & a' & v & E & Ev & Hup) & _).
  exists row, action, a', v. repeat split; assumption.
Defined.

Lemma explores_when_epsilon_is_one_witness :
  agent_ok (__init__ (G := Z) (with_epsilon 1)) /\ valid_index 4 1 /\
  1 <= epsilon (__init__ (G := Z) (with_epsilon 1)) /\
  exists action a',
    start 1 (__init__ (G := Z) (with_epsilon 1)) = (Return action, a').
Proof.
  assert (He : 1 <= epsilon (__init__ (G := Z) (with_epsilon 1)))
    by (apply Qle_bool_iff; vm_compute; reflexivity).
  split; [apply agent_init_ok|]. split; [exact valid_state_1|].
  split; [exact He|].
  do 2 eexists.
  apply (explores_when_epsilon_is_one _ 1 (agent_init_ok _)
           valid_state_1 He).
Defined.

Lemma argmax_unique_maximum_witness :
  [1; 3; 2] !! 1%nat = Some 3 /\
  (forall j w, [1; 3; 2] !! j = Some w -> j <> 1%nat -> w < 3) /\
  exists g',
    argmax [1; 3; 2] fresh_agent
    = (Return 1%Z, set_rand_generator g' fresh_agent).
Proof.
  assert (Hs : forall j w, ([1; 3; 2] : list Q) !! j = Some w ->
                 j <> 1%nat -> w < 3).
  { intros [|[|[|j]]] w Ew Hj; simpl in Ew; try discriminate;
      try congruence; injection Ew as <-; apply Qltb_lt; reflexivity. }
  split; [reflexivity|]. split; [exact Hs|].
  exact (argmax_unique_maximum [1; 3; 2] 1 3 fresh_agent eq_refl Hs).
Defined.

Lemma actions_are_valid_witness :
  agent_ok fresh_agent /\ valid_index 4 1 /\
  exists action a',
    start 1 fresh_agent = (Return action, a') /\ (0 <= action < 3)%Z.
Proof.
  split; [apply agent_init_ok|]. split; [exact valid_state_1|].
  apply (actions_are_valid fresh_agent 1 (agent_init_ok _) valid_state_1).
Defined.

Lemma invalid_state_raises_witness :
  agent_ok fresh_agent /\ ~ valid_index 4 7 /\
  start 7 fresh_agent = (Raise IndexError, fresh_agent) /\
  step 7 1 fresh_agent = (Raise IndexError, fresh_agent).
Proof.
  assert (Hs : ~ valid_index 4 7) by (unfold valid_index; simpl; lia).
  split; [apply agent_init_ok|]. split; [exact Hs|].
  destruct (invalid_state_raises fresh_agent 7 (agent_init_ok _) Hs)
    as [E1 E2].
  split; [exact E1|apply E2].
Defined.

Lemma fresh_agent_memory :
  prev_state fresh_agent = None /\ prev_action fresh_agent = None.
Proof. split; vm_compute; reflexivity. Defined.

Lemma step_before_start_raises_witness :
  agent_ok fresh_agent /\ valid_index 4 1 /\
  prev_state fresh_agent = None /\ prev_action fresh_agent = None /\
  exists g',
    step 1 1 fresh_agent
    = (Raise ValueError, set_rand_generator g' fresh_agent).
Proof.
  destruct fresh_agent_memory as [Mps Mpa].
  split; [apply agent_init_ok|]. split; [exact valid_state_1|].
  split; [exact Mps|]. split; [exact Mpa|].
  apply (step_before_start_raises fresh_agent 1 1 (agent_init_ok _)
           valid_state_1 Mps Mpa).
Defined.


End AgentExtras.

(** ** The experiment loop *)

Module ExperimentProps.
Import Experiment ExperimentSpec BoundSpec.

Lemma along_rows_total {A} (f : list Q -> outcome A) (t : list (list Q)) :
  Forall (fun row => exists x, f row = Return x) t ->
  exists xs, along_rows f t = Return xs /\ length xs = length t.
Proof.
  induction 1 as [|row t [x Ex] _ (xs & Exs & Hlen)]; simpl.
  - now exists [].
  - rewrite Ex. simpl. rewrite Exs. simpl.
    exists (x :: xs). split; [reflexivity|]. simpl. now rewrite Hlen.
Qed.

Section WithGenerator.
Context {G : Type} `{RandomState G}.

Lemma env_step_summary (e : Env.self G) (s action : Z) :
  EnvironmentSpec.started e s -> (0 <= action < 3)%Z ->
  exists next reward e',
    Env.step action e = (Return (next, reward), e') /\
    EnvironmentSpec.started e' next /\ 0 <= reward /\ reward <= 3.
Proof.
  intros Hst Ha.
  destruct (EnvironmentProps.step_valid e s action Hst Ha)
    as (row & p & r & ns & pr & Erow & Er & _ & Ens & _ & _ & E).
  destruct Hst as (Ht & _ & Hs).
  exists ns, r. eexists. split; [exact E|]. split.
  - split; [exact Ht|]. split; [reflexivity|].
    eapply EnvironmentProps.grid_members, Ens.
  - apply (EnvironmentExtras.rewards_bounds s action row r Hs Erow).
    apply getitem_lookup; [lia|exact Er].
Qed.

Lemma prelude_establishes
    (env_info : Env.env_info) (agent_info : Ag.agent_info) :
  let a0 := Ag.__init__ agent_info in
  let l0 :=
    {| env := Env.__init__ env_info; agent := a0;
       has_converged := false; num_steps := 0;
       next_state := 0; next_reward := 0; stdout := [] |} in
  exists s0 act0 e1 a1 l1,
    Env.start (Env.__init__ env_info) = (Return s0, e1) /\
    Ag.start s0 a0 = (Return act0, a1) /\
    prelude l0 = (Return tt, l1) /\
    invariant a0 s0 act0 l1 /\
    Ag.q (agent l1) = Ag.q a0 /\ has_converged l1 = false.
Proof.
  intros a0 l0.
  pose proof (EnvironmentProps.env_init_ok env_info) as [Ht _].
  destruct (EnvironmentProps.env_start_eq _ Ht) as (s0 & Es0 & Estart).
  pose proof (EnvironmentProps.grid_members _ _ Es0) as Hs0.
  assert (Vs0 : AgentSpec.valid_index 4 s0)
    by (unfold AgentSpec.valid_index; lia).
  destruct (AgentProps.agent_start_eq a0 s0
              (AgentProps.agent_init_ok agent_info) Vs0)
    as (act0 & g' & Hact & Eag).
  set (e1 := Env.set_cur_loc (Some s0)
               (Env.set_rand_generator
                  (snd (random_below 4
                          (Env.rand_generator (Env.__init__ env_info))))
                  (Env.__init__ env_info))) in *.
  assert (Hst1 : EnvironmentSpec.started e1 s0)
    by (split; [exact Ht|split; [reflexivity|exact Hs0]]).
  destruct (env_step_summary e1 s0 act0 Hst1 Hact)
    as (ns & r & e2 & Estep & Hst2 & Hr0 & Hr3).
  exists s0, act0, e1. do 2 eexists.
  split; [exact Estart|]. split; [exact Eag|].
  split.
  { unfold prelude, bind, zoom, modify. unfold l0. cbn [env agent].
    rewrite Estart. cbn [env agent set_env set_agent].
    rewrite Eag. cbn [env agent set_env set_agent].
    rewrite Estep. reflexivity. }
  cbn [agent env set_next set_env set_agent has_converged next_state
       next_reward fst snd].
  split; [|split; reflexivity].
  pose proof (AgentProps.agent_init_ok agent_info) as Hok.
  repeat split; trivial; try apply Hst2; try apply Hok; try lia.
Qed.

(** One pass of the loop body under the invariant. *)
Lemma body_keeps (print_vals : bool) (a0 : Ag.self G) (s0 act0 : Z)
    (l : locals G) :
  invariant a0 s0 act0 l ->
  exists res a' l',
    Ag.step (next_state l) (next_reward l) (agent l) = (Return res, a') /\
    body print_vals l = (Return tt, l') /\
    agent l' = a' /\ has_converged l' = snd res /\
    invariant a0 s0 act0 l'.
Proof.
  intros (Hst & Hok & Hps & Hpa & Hs0 & Ha0 & Hss & Hdis & Hr0 & Hr3 & Hfr).
  assert (Vs : AgentSpec.valid_index 4 (next_state l))
    by (destruct Hst as (_ & _ & Hs); unfold AgentSpec.valid_index; lia).
  destruct (AgentExtras.step_summary (agent l) (next_state l)
              (next_reward l) s0 act0 Hok Vs Hps Hpa Hs0 Ha0)
    as (action & conv & a' & Estep & Hact & Hok' & Hps' & Hpa' & Hss'
        & Hdis' & Hfr').
  destruct (env_step_summary (env l) (next_state l) action Hst Hact)
    as (ns & r & e' & Eenv & Hst' & Hr0' & Hr3').
  set (mid := set_next ns r
                (set_env e' (set_has_converged conv (set_agent a' l)))).
  exists (action, conv), a',
    (set_num_steps (num_steps l + 1)
       (if print_vals && (num_steps l mod 2500 =? 0)%Z
        then print (Progress (num_steps l) (Ag.q a')) mid
        else mid)).
  split; [exact Estep|]. split.
  { unfold body, bind, zoom, gets, modify, ret.
    rewrite Estep. cbn [fst snd env set_agent set_has_converged].
    rewrite Eenv. unfold mid.
    destruct (print_vals && _); reflexivity. }
  unfold mid, invariant.
  destruct (print_vals && _);
    cbn [agent env has_converged next_state next_reward set_num_steps
         set_next set_env set_agent set_has_converged print fst snd];
    (split; [reflexivity|]); (split; [reflexivity|]);
    repeat (split; [first [assumption | congruence]|]);
    intros i j Hne; rewrite Hfr' by exact Hne; now apply Hfr.
Qed.

Lemma while_loop_keeps (print_vals : bool) (a0 : Ag.self G) (s0 act0 : Z)
    (fuel : nat) (l : locals G) (r : outcome unit) (l' : locals G) :
  invariant a0 s0 act0 l ->
  while_loop fuel print_vals l = Some (r, l') ->
  r = Return tt /\ has_converged l' = true /\ invariant a0 s0 act0 l'.
Proof.
  revert l. induction fuel as [|fuel IH]; intros l Hinv;
    cbn [while_loop];
    destruct (has_converged l) eqn:Ec; try discriminate;
    try (intros [= <- <-]; split; [reflexivity|split; assumption]).
  destruct (body_keeps print_vals a0 s0 act0 l Hinv)
    as (res & a' & l1 & _ & Eb & _ & _ & Hinv1).
  rewrite Eb. now apply IH.
Qed.

Lemma epilogue_returns (l : locals G) :
  AgentSpec.agent_ok (agent l) ->
  exists values actions,
    epilogue l
    = (Return (Ag.q (agent l)),
       print (Policy actions)
         (print (StateValues values)
            (print (ActionValues (Ag.q (agent l))) l))).
Proof.
  intros (_ & _ & _ & Hrows).
  destruct (along_rows_total np_max (Ag.q (agent l))) as (vs & Evs & _).
  { eapply Forall_impl; [exact Hrows|]. simpl. intros row Hlen.
    destruct row; [discriminate|]. simpl. eauto. }
  destruct (along_rows_total np_argmax (Ag.q (agent l))) as (ps & Eps & _).
  { eapply Forall_impl; [exact Hrows|]. simpl. intros row Hlen.
    destruct row; [discriminate|]. simpl. eauto. }
  exists vs, ps.
  unfold epilogue, bind, gets, modify, lift_outcome, ret.
  cbn [agent print]. rewrite Evs. cbn [agent print]. rewrite Eps.
  reflexivity.
Qed.

(** Everything [run_experiment] can end in. *)
Lemma run_experiment_end
    (fuel : nat) (env_info : Env.env_info) (agent_info : Ag.agent_info)
    (print_vals : bool) (r : outcome (list (list Q))) (l : locals G) :
  run_experiment fuel env_info agent_info print_vals = Some (r, l) ->
  exists s0 act0 e1 a1,
    Env.start (Env.__init__ env_info) = (Return s0, e1) /\
    Ag.start s0 (Ag.__init__ agent_info) = (Return act0, a1) /\
    r = Return (Ag.q (agent l)) /\ has_converged l = true /\
    invariant (Ag.__init__ agent_info) s0 act0 l.
Proof.
  destruct (prelude_establishes env_info agent_info)
    as (s0 & act0 & e1 & a1 & l1 & Es & Ea & Ep & Hinv & _ & _).
  unfold run_experiment. rewrite Ep.
  destruct (while_loop fuel print_vals l1) as [[o l2]|] eqn:W;
    [|discriminate].
  destruct (while_loop_keeps print_vals _ s0 act0 fuel l1 o l2 Hinv W)
    as (-> & Hc & Hinv2).
  destruct (epilogue_returns l2 (proj1 (proj2 Hinv2)))
    as (vs & ps & Ee).
  rewrite Ee. intros [= <- <-].
  exists s0, act0, e1, a1.
  split; [exact Es|]. split; [exact Ea|]. split; [reflexivity|].
  split; [exact Hc|exact Hinv2].
Qed.
End WithGenerator.

Section Bounded.
Context {G : Type} `{RandomState G}.




Variable a0 : Ag.self G.
Variable M : Q.
Hypothesis Halpha0 : 0 < Ag.step_size a0.
Hypothesis Halpha1 : Ag.step_size a0 <= 1.
Hypothesis Hgamma : 0 <= Ag.discount a0.
Hypothesis Hfix : 3 + Ag.discount a0 * M <= M.


End Bounded.

Section Driver.
Context {G : Type} `{RandomState G}.

(** X16. With seeds that [np.random.RandomState] takes, so that both
    objects are built, [run_experiment] does not raise: whenever it stops,
    every call it made on the environment and on the agent was accepted, the
    flag [has_converged] is set, and the value returned is the agent's
    table. *)
Theorem run_experiment_never_raises
    (fuel : nat) (env_info : Env.env_info) (agent_info : Ag.agent_info)
    (print_vals : bool) (r : outcome (list (list Q))) (l : locals G) :
  seed_accepted (Env.info_seed env_info) ->
  seed_accepted (Ag.info_seed agent_info) ->
  run_experiment fuel env_info agent_info print_vals = Some (r, l) ->
  r = Return (Ag.q (agent l)) /\ has_converged l = true /\
  length (Ag.q (agent l)) = 4%nat /\
  Forall (fun row => length row = 3%nat) (Ag.q (agent l)).
Proof.
  intros _ _ E.
  destruct (run_experiment_end fuel env_info agent_info print_vals r l E)
    as (s0 & act0 & e1 & a1 & _ & _ & Er & Hc & Hinv).
  destruct Hinv as (_ & (_ & _ & Hlen & Hrows) & _).
  repeat split; assumption.
Qed.

(** X17. The table [run_experiment] returns is the table the agent was
    built with except, at most, for one entry: the one of the state
    [env.start()] returned and the action [agent.start] chose for it.
    However long the loop runs, no other entry is ever updated. *)
Theorem run_experiment_updates_one_entry
    (fuel : nat) (env_info : Env.env_info) (agent_info : Ag.agent_info)
    (print_vals : bool) (r : outcome (list (list Q))) (l : locals G) :
  run_experiment fuel env_info agent_info print_vals = Some (r, l) ->
  exists init_state init_action e1 a1 table,
    Env.start (Env.__init__ env_info) = (Return init_state, e1) /\
    Ag.start init_state (Ag.__init__ agent_info)
      = (Return init_action, a1) /\
    r = Return table /\
    forall i j, (i, j) <> (Z.to_nat init_state, Z.to_nat init_action) ->
      AgentSpec.entry table i j
      = AgentSpec.entry (Ag.q (Ag.__init__ agent_info)) i j.
Proof.
  intros E.
  destruct (run_experiment_end fuel env_info agent_info print_vals r l E)
    as (s0 & act0 & e1 & a1 & Es & Ea & Er & _ & Hinv).
  exists s0, act0, e1, a1, (Ag.q (agent l)).
  repeat (split; [assumption|]).
  apply Hinv.
Qed.

End Driver.

#[local] Existing Instance Lcg.generator.

Lemma run_experiment_never_raises_witness :
  seed_accepted (Some 0%Z) /\ seed_accepted (Ag.info_seed quick_info) /\
  exists r l,
    run_experiment (G := Z) 1 {| Env.info_seed := Some 0%Z |} quick_info
      false = Some (r, l) /\
    r = Return (Ag.q (agent l)) /\ has_converged l = true /\
    length (Ag.q (agent l)) = 4%nat /\
    Forall (fun row => length row = 3%nat) (Ag.q (agent l)).
Proof.
  assert (Hs : seed_accepted (Some 0%Z)) by (simpl; lia).
  split; [exact Hs|]. split; [exact Hs|].
  destruct (run_experiment (G := Z) 1 {| Env.info_seed := Some 0%Z |}
              quick_info false) as [[r l]|] eqn:E.
  - exists r, l. split; [reflexivity|].
    exact (run_experiment_never_raises 1 {| Env.info_seed := Some 0%Z |}
             quick_info false r l Hs Hs E).
  - vm_compute in E. discriminate.
Defined.

Lemma run_experiment_updates_one_entry_witness :
  exists r l,
    run_experiment (G := Z) 1 {| Env.info_seed := Some 0%Z |} quick_info
      false = Some (r, l) /\
    exists init_state init_action e1 a1 table,
      Env.start (Env.__init__ {| Env.info_seed := Some 0%Z |})
        = (Return init_state, e1) /\
      Ag.start init_state (Ag.__init__ quick_info)
        = (Return init_action, a1) /\
      r = Return table /\
      forall i j, (i, j) <> (Z.to_nat init_state, Z.to_nat init_action) ->
        AgentSpec.entry table i j
        = AgentSpec.entry (Ag.q (Ag.__init__ quick_info)) i j.
Proof.
  destruct (run_experiment (G := Z) 1 {| Env.info_seed := Some 0%Z |}
              quick_info false) as [[r l]|] eqn:E.
  - exists r, l. split; [reflexivity|].
    exact (run_experiment_updates_one_entry 1
             {| Env.info_seed := Some 0%Z |} quick_info false r l E).
  - vm_compute in E. discriminate.
Defined.

End ExperimentProps.

(** ** The convergence flag on doubles *)

Module Agent64Props.
Import Binary64 QLearningAgent64 Agent64Spec.

Lemma double_eqb_refl (v : double) : is_nan v = false -> eqb v v = true.
Proof.
  unfold eqb, SpecFloat.SFeqb.
  destruct v as [s|s| |s m e]; simpl; try discriminate; intros _;
    try reflexivity.
  - now destruct s.
  - rewrite Z.compare_refl.
    change (Pos.compare_cont Eq m m) with (Pos.compare m m).
    rewrite Pos.compare_refl. now destruct s.
Qed.

Lemma ltb_not_nan (top v : double) : ltb top v = true -> is_nan v = false.
Proof.
  unfold ltb, SpecFloat.SFltb.
  destruct v; try reflexivity. now destruct top.
Qed.

Lemma neg_inf_lowest (v : double) :
  is_nan v = false -> ltb neg_inf v = true \/ eqb v neg_inf = true.
Proof.
  destruct v as [s|s| |s m e]; simpl; try discriminate; intros _;
    auto.
  destruct s; auto.
Qed.

(** Once a candidate is listed, [ties] is never left empty: it is emptied
    only to receive the index at hand. *)
Lemma argmax_scan_keeps (vs : list double) (i : Z) (top : double)
    (ties : list Z) :
  ties <> [] -> snd (argmax_scan i vs top ties) <> [].
Proof.
  revert i top ties.
  induction vs as [|v rest IH]; intros i top ties Hne; [exact Hne|].
  simpl argmax_scan.
  destruct (ltb top v) eqn:Hab.
  - rewrite (double_eqb_refl v (ltb_not_nan top v Hab)). apply IH.
    simpl. discriminate.
  - destruct (eqb v top); apply IH; [|exact Hne].
    intros E. now apply app_eq_nil in E as [_ E].
Qed.

(** From [top = float("-inf")], the first value that is not NaN is
    listed. *)
Lemma argmax_scan_finds (vs : list double) (i : Z) (ties : list Z) :
  Exists (fun v => is_nan v = false) vs ->
  snd (argmax_scan i vs neg_inf ties) <> [].
Proof.
  intros Hex. revert i ties.
  induction Hex as [v rest Hv|v rest _ IH]; intros i ties.
  - simpl argmax_scan.
    destruct (neg_inf_lowest v Hv) as [Hab|Heq].
    + rewrite Hab, (double_eqb_refl v Hv). apply argmax_scan_keeps.
      simpl. discriminate.
    + destruct (ltb neg_inf v).
      * rewrite (double_eqb_refl v Hv). apply argmax_scan_keeps.
        simpl. discriminate.
      * rewrite Heq. apply argmax_scan_keeps.
        intros E. now apply app_eq_nil in E as [_ E].
  - simpl argmax_scan.
    destruct (ltb neg_inf v) eqn:Hab.
    + rewrite (double_eqb_refl v (ltb_not_nan _ v Hab)).
      apply argmax_scan_keeps. simpl. discriminate.
    + destruct (eqb v neg_inf); [|apply IH].
      apply argmax_scan_keeps.
      intros E. now apply app_eq_nil in E as [_ E].
Qed.

Lemma entry64_insert (t : list (list double)) (i j : nat)
    (row : list double) (x : double) :
  t !! i = Some row -> (j < length row)%nat ->
  entry (<[i := <[j := x]> row]> t) i j = Some x.
Proof.
  intros Ei Hj. unfold entry.
  rewrite list_lookup_insert_eq by (eapply lookup_lt_Some, Ei).
  now apply list_lookup_insert_eq.
Qed.

Section WithGenerator.
Context {G : Type} `{RandomState G}.

Lemma argmax_returns (q_values : list double) (a : self G) :
  Exists (fun v => is_nan v = false) q_values ->
  exists action g',
    argmax q_values a = (Return action, set_rand_generator g' a).
Proof.
  intros Hex. unfold argmax.
  pose proof (argmax_scan_finds q_values 0 [] Hex) as Hne.
  destruct (argmax_scan 0 q_values neg_inf []) as [top ties].
  simpl in Hne. unfold zoom.
  destruct (choice_eq ties (rand_generator a) Hne) as (x & _ & ->).
  eauto.
Qed.

(** Whatever it returns or raises, the epsilon-greedy choice changes the
    generator only. *)
Lemma epsilon_greedy64_frame (current_q : list double) (a : self G) :
  exists o g', epsilon_greedy current_q a = (o, set_rand_generator g' a).
Proof.
  unfold epsilon_greedy, bind, zoom, gets, rand.
  destruct (random_sample (rand_generator a)) as [u g1].
  cbn [epsilon set_rand_generator].
  destruct (ltb (of_Q u) (epsilon a)).
  - cbn [num_actions rand_generator set_rand_generator].
    destruct (randint (num_actions a) g1) as [o g2]. eauto.
  - unfold argmax.
    destruct (argmax_scan 0 current_q neg_inf []) as [top ties].
    unfold zoom. cbn [rand_generator set_rand_generator].
    destruct (choice ties g1) as [o g2]. eauto.
Qed.

Lemma epsilon_greedy_returns (current_q : list double) (a : self G) :
  num_actions a = 3%Z ->
  Exists (fun v => is_nan v = false) current_q ->
  exists action g',
    epsilon_greedy current_q a = (Return action, set_rand_generator g' a).
Proof.
  intros Hn Hex.
  unfold epsilon_greedy, bind, zoom, gets, rand.
  destruct (random_sample (rand_generator a)) as [u g1].
  cbn [epsilon set_rand_generator].
  destruct (ltb (of_Q u) (epsilon a)).
  - cbn [num_actions rand_generator set_rand_generator]. rewrite Hn.
    rewrite randint_eq by lia. eauto.
  - destruct (argmax_returns current_q (set_rand_generator g1 a) Hex)
      as (action & g' & ->).
    eauto.
Qed.

Lemma step_loop64_eq (a : self G) (state : Z) (reward cur_val : double)
    (acts : list Z) (nexts : list double) (new_val : double) :
  Forall2 (fun act next => getitem2 (q a) state act = Return next)
    acts nexts ->
  step_loop acts state reward cur_val new_val a
  = (Return (fold_left pymax (map (candidate a reward cur_val) nexts)
               new_val), a).
Proof.
  intros Hall. revert new_val.
  induction Hall as [|act next acts nexts E _ IH]; intros new_val;
    [reflexivity|].
  simpl step_loop. unfold bind, gets, lift_outcome. rewrite E.
  rewrite IH. reflexivity.
Qed.

Lemma row64_reads (t : list (list double)) (state : Z) (k : nat)
    (row : list double) :
  py_index (length t) state = Some k -> t !! k = Some row ->
  length row = 3%nat ->
  Forall2 (fun act next => getitem2 t state act = Return next)
    (range 3) row.
Proof.
  intros Ek Erow Lrow.
  assert (Eg : getitem t state = Return row)
    by (unfold getitem; now rewrite Ek, Erow).
  destruct row as [|x0 [|x1 [|x2 [|]]]]; try discriminate.
  change (range 3) with [0; 1; 2]%Z.
  repeat constructor; unfold getitem2; rewrite Eg; reflexivity.
Qed.

(** What [step] does once its epsilon-greedy choice has returned: one
    assignment, to the remembered entry, and the test on the rounded
    difference. *)
Lemma step_after_choice (a : self G) (state : Z) (reward : double)
    (ps pa : Z) (row : list double) (action : Z) (g' : G) :
  agent_ok a -> AgentSpec.valid_index 4 state ->
  prev_state a = Some ps -> prev_action a = Some pa ->
  AgentSpec.valid_index 4 ps -> AgentSpec.valid_index 3 pa ->
  getitem (q a) state = Return row ->
  epsilon_greedy row a = (Return action, set_rand_generator g' a) ->
  exists i prow j cur_val,
    py_index 4 ps = Some i /\ q a !! i = Some prow /\
    py_index 3 pa = Some j /\ prow !! j = Some cur_val /\
    let new_val :=
      fold_left pymax (map (candidate a reward cur_val) row)
        (of_Z (-100000000)) in
    step state reward a
    = (Return (action, ltb (abs (sub new_val cur_val)) (delta a)),
       set_q (<[i := <[j := new_val]> prow]> (q a))
         (set_rand_generator g' a)).
Proof.
  intros (Hn & Hns & Hlen & Hrows) Hs Hps Hpa Vps Vpa Eg Ee.
  destruct (getitem_Return (q a) state row Eg) as (k & Ek & Erow).
  assert (Lrow : length row = 3%nat)
    by (rewrite Forall_lookup in Hrows; exact (Hrows k row Erow)).
  destruct (AgentProps.getitem_valid (q a) 4 ps Hlen Vps)
    as (i & prow & Ei & Eprow & Egp).
  assert (Lprow : length prow = 3%nat)
    by (rewrite Forall_lookup in Hrows; exact (Hrows i prow Eprow)).
  destruct (AgentProps.getitem_valid prow 3 pa Lprow Vpa)
    as (j & cur & Ej & Ecur & Egc).
  exists i, prow, j, cur.
  repeat (split; [assumption|]). cbv zeta.
  set (new_val := fold_left pymax (map (candidate a reward cur) row)
                    (of_Z (-100000000))).
  unfold step, bind, gets, lift_outcome, modify, ret.
  rewrite Eg, Ee.
  cbn [prev_state prev_action set_rand_generator num_actions delta].
  rewrite Hps, Hpa.
  assert (E2 : getitem2 (q a) ps pa = Return cur)
    by (unfold getitem2; rewrite Egp; exact Egc).
  rewrite E2.
  change (num_actions (set_rand_generator g' a)) with (num_actions a).
  rewrite Hn. change (Z.to_nat 3) with 3%nat.
  rewrite (step_loop64_eq (set_rand_generator g' a) state reward cur
             (range 3) row (of_Z (-100000000))).
  2:{ cbn [q set_rand_generator]. apply (row64_reads _ _ k); trivial. }
  change (fold_left pymax
            (map (candidate (set_rand_generator g' a) reward cur) row)
            (of_Z (-100000000))) with new_val.
  assert (E3 : setitem2 (q a) ps pa new_val
               = Return (<[i := <[j := new_val]> prow]> (q a))).
  { unfold setitem2. rewrite Egp. simpl obind. unfold setitem.
    rewrite Lprow, Ej. simpl obind. now rewrite Hlen, Ei. }
  rewrite E3.
  change (delta (set_q _ (set_rand_generator g' a))) with (delta a).
  now destruct (ltb (abs (sub new_val cur)) (delta a)).
Qed.

(** C3. On doubles, a call of [step] that numpy accepts and whose row
    [q[state]] is not all NaN returns; and whenever [step] returns,
    [converged] is the outcome of [abs(new_val - cur_val) < delta] on the
    rounded difference, where [cur_val] is the remembered entry of the
    table before the call and [new_val] the same entry after it: no other
    entry takes part in the test. *)
Theorem step_flag_tests_rounded_difference
    (a : self G) (state : Z) (reward : double) (ps pa : Z) :
  agent_ok a -> AgentSpec.valid_index 4 state ->
  prev_state a = Some ps -> prev_action a = Some pa ->
  AgentSpec.valid_index 4 ps -> AgentSpec.valid_index 3 pa ->
  exists row i j cur_val,
    getitem (q a) state = Return row /\
    py_index 4 ps = Some i /\ py_index 3 pa = Some j /\
    entry (q a) i j = Some cur_val /\
    (Exists (fun v => is_nan v = false) row ->
     exists result a', step state reward a = (Return result, a')) /\
    forall action converged a',
      step state reward a = (Return (action, converged), a') ->
      exists new_val,
        entry (q a') i j = Some new_val /\
        converged = ltb (abs (sub new_val cur_val)) (delta a).
Proof.
  intros Hok Hs Hps Hpa Vps Vpa.
  pose proof Hok as (Hn & _ & Hlen & Hrows).
  destruct (AgentProps.getitem_valid (q a) 4 state Hlen Hs)
    as (k & row & Ek & Erow & Eg).
  destruct (AgentProps.getitem_valid (q a) 4 ps Hlen Vps)
    as (i & prow & Ei & Eprow & Egp).
  assert (Lprow : length prow = 3%nat)
    by (rewrite Forall_lookup in Hrows; exact (Hrows i prow Eprow)).
  destruct (AgentProps.getitem_valid prow 3 pa Lprow Vpa)
    as (j & cur & Ej & Ecur & Egc).
  exists row, i, j, cur.
  do 3 (split; [assumption|]).
  split; [unfold entry; now rewrite Eprow|].
  split.
  - intros Hex.
    destruct (epsilon_greedy_returns row a Hn Hex) as (action & g' & Ee).
    destruct (step_after_choice a state reward ps pa row action g'
                Hok Hs Hps Hpa Vps Vpa Eg Ee)
      as (i' & prow' & j' & cur' & _ & _ & _ & _ & E).
    cbv zeta in E. rewrite E. eauto.
  - intros action converged a' E.
    destruct (epsilon_greedy64_frame row a) as ([act|x] & g' & Ee).
    + destruct (step_after_choice a state reward ps pa row act g'
                  Hok Hs Hps Hpa Vps Vpa Eg Ee)
        as (i' & prow' & j' & cur' & Ei' & Eprow' & Ej' & Ecur' & E').
      cbv zeta in E'. rewrite E' in E.
      assert (i' = i) by congruence. subst i'.
      assert (prow' = prow) by congruence. subst prow'.
      assert (j' = j) by congruence. subst j'.
      assert (cur' = cur) by congruence. subst cur'.
      injection E as <- <- <-.
      eexists. split; [|reflexivity].
      cbn [q set_q]. apply entry64_insert; [exact Eprow|].
      eapply lookup_lt_Some, Ecur.
    + unfold step, bind, gets, lift_outcome in E.
      rewrite Eg, Ee in E. discriminate.
Qed.
End WithGenerator.

#[local] Existing Instance Lcg.generator.

Lemma step_flag_tests_rounded_difference_witness :
  exists a,
    started_agent = Some a /\
    agent_ok a /\ AgentSpec.valid_index 4 1 /\
    prev_state a = Some 0%Z /\ prev_action a = Some 1%Z /\
    AgentSpec.valid_index 4 0 /\ AgentSpec.valid_index 3 1 /\
    exists row i j cur_val,
      getitem (q a) 1 = Return row /\
      py_index 4 0 = Some i /\ py_index 3 1 = Some j /\
      entry (q a) i j = Some cur_val /\
      (Exists (fun v => is_nan v = false) row ->
       exists result a', step 1 one a = (Return result, a')) /\
      forall action converged a',
        step 1 one a = (Return (action, converged), a') ->
        exists new_val,
          entry (q a') i j = Some new_val /\
          converged = ltb (abs (sub new_val cur_val)) (delta a).
Proof.
  destruct started_agent as [a|] eqn:E; [|vm_compute in E; discriminate].
  vm_compute in E. injection E as <-.
  eexists. split; [reflexivity|].
  match goal with |- agent_ok ?r /\ _ => set (a := r) end.
  assert (Hok : agent_ok a) by (repeat split; repeat constructor).
  assert (V1 : AgentSpec.valid_index 4 1)
    by (unfold AgentSpec.valid_index; simpl; lia).
  assert (V0 : AgentSpec.valid_index 4 0)
    by (unfold AgentSpec.valid_index; simpl; lia).
  assert (Va : AgentSpec.valid_index 3 1)
    by (unfold AgentSpec.valid_index; simpl; lia).
  do 6 (split; [assumption || reflexivity|]).
  exact (step_flag_tests_rounded_difference a 1 one 0 1
           Hok V1 eq_refl eq_refl V0 Va).
Defined.

(** C3 fails as stated, with the exact difference.  An agent built with
    [step_size = 1.0], [discount = 0.0] and [delta = 1.0] holds [2^-55] in
    the remembered entry after [start(0)] and [step(0, 2**-55)].  On
    [step(0, 1.0)] every candidate [cur_val + 1.0 * (1.0 - cur_val)] is
    [1.0], the rounded difference [abs(1.0 - 2**-55)] is [1.0], and the
    flag is [False], although the two stored values differ by
    [1 - 2^-55 < delta]. *)
Lemma step_flag_differs_from_exact_test :
  exists a action a' cur_val new_val c n d,
    tiny_agent = Some a /\
    prev_state a = Some 0%Z /\ prev_action a = Some 1%Z /\
    step 0 one a = (Return (action, false), a') /\
    entry (q a) 0 1 = Some cur_val /\
    entry (q a') 0 1 = Some new_val /\
    value cur_val = Some c /\ value new_val = Some n /\
    value (delta a) = Some d /\
    Qabs (n - c) < d.
Proof.
  do 8 eexists.
  split; [vm_compute; reflexivity|].
  split; [reflexivity|]. split; [reflexivity|].
  split; [vm_compute; reflexivity|].
  split; [vm_compute; reflexivity|].
  split; [vm_compute; reflexivity|].
  split; [vm_compute; reflexivity|].
  split; [vm_compute; reflexivity|].
  split; [vm_compute; reflexivity|].
  apply Qltb_lt. vm_compute. reflexivity.
Qed.
End Agent64Props.
